(** * Voice-session client of the to-do front end: model and properties

    The development follows the two voice-assistant components of the
    repository: the one that talks to the assistant SDK directly and answers
    its tool calls ([handleToolCall]), and the one that talks to the backend
    over a WebSocket ([handleAction], the capture handler, the playback
    scheduling and [stopSession]).

    JavaScript values are modelled by a small value type, exceptions by an
    explicit completion, and every call that leaves the component (CRUD
    layer, refresh callback, console, socket, audio nodes) is recorded in a
    trace, so that "no CRUD call" and "released once" are statements about
    that trace. *)

From Stdlib Require Import List String Ascii ZArith QArith Qround Lia Bool Arith.
From Stdlib Require Import DecimalString Qabs Lqa.
Import ListNotations.

Close Scope Q_scope.

(* ------------------------------------------------------------------ *)
(** ** JavaScript values, exceptions and effects *)

Module Js.

(** The values the tool-call arguments and the thrown errors carry. The
    tools declare every parameter as a string; of a number and of an object
    the component can only see whether it is falsy and how it prints. *)
Inductive value : Type :=
| Undefined
| Null
| Bool (b : bool)
| Num (zero_or_nan : bool) (shown : string)
| Str (s : string)
| Obj (shown : string).

(** Truthiness as [||] and [if] see it: [undefined], [null], [false], the
    numbers 0 and NaN and the empty string are falsy. *)
Definition truthy (v : value) : bool :=
  match v with
  | Undefined | Null => false
  | Bool b => b
  | Num zero_or_nan _ => negb zero_or_nan
  | Str EmptyString => false
  | Str (String _ _) => true
  | Obj _ => true
  end.

(** [a || b] *)
Definition or (a b : value) : value := if truthy a then a else b.

(** String conversion inside a template literal. *)
Definition toString (v : value) : string :=
  match v with
  | Undefined => "undefined"
  | Null => "null"
  | Bool true => "true"
  | Bool false => "false"
  | Num _ shown => shown
  | Str s => s
  | Obj shown => shown
  end.

(** A thrown error object; [message] is what [e.message] reads. *)
Record Error : Type := mkError { message : value }.

Inductive completion (A : Type) : Type :=
| Normal (a : A)
| Throw (e : Error).
Arguments Normal {A} a.
Arguments Throw {A} e.

(** A computation: the trace of outside calls it made, and how it ended. *)
Definition M (Ev A : Type) : Type := (list Ev * completion A)%type.

Definition ret {Ev A} (a : A) : M Ev A := ([], Normal a).

Definition throw {Ev A} (e : Error) : M Ev A := ([], Throw e).

Definition emit {Ev} (ev : Ev) : M Ev unit := ([ev], Normal tt).

Definition bind {Ev A B} (m : M Ev A) (k : A -> M Ev B) : M Ev B :=
  match m with
  | (t, Normal a) => let '(t', r) := k a in (t ++ t', r)
  | (t, Throw e) => (t, Throw e)
  end.

(** [try { m } catch (e) { h e }] *)
Definition try_catch {Ev A} (m : M Ev A) (h : Error -> M Ev A) : M Ev A :=
  match m with
  | (t, Normal a) => (t, Normal a)
  | (t, Throw e) => let '(t', r) := h e in (t ++ t', r)
  end.

Definition trace {Ev A} (m : M Ev A) : list Ev := fst m.
Definition outcome {Ev A} (m : M Ev A) : completion A := snd m.

(** An object literal, read by property name; a missing property reads as
    [undefined]. *)
Definition object : Type := list (string * value).

Fixpoint get (o : object) (k : string) : value :=
  match o with
  | [] => Undefined
  | (k', v) :: o' => if String.eqb k' k then v else get o' k
  end.

(** Substring test of [String.prototype.includes]. *)
Fixpoint includes (s q : string) : bool :=
  if String.prefix q s then true
  else match s with
       | EmptyString => false
       | String _ s' => includes s' q
       end.

(** The case mapping of [toLowerCase] on the letters A to Z. *)
Definition lower_ascii (c : ascii) : ascii :=
  let n := nat_of_ascii c in
  if (65 <=? n)%nat && (n <=? 90)%nat then ascii_of_nat (n + 32) else c.

Fixpoint lower_string (s : string) : string :=
  match s with
  | EmptyString => EmptyString
  | String c s' => String (lower_ascii c) (lower_string s')
  end.

End Js.

Declare Scope js_scope.
Delimit Scope js_scope with js.
Notation "x <- m ;; k" := (Js.bind m (fun x => k))
  (at level 61, m at next level, right associativity) : js_scope.
Notation "m ;;; k" := (Js.bind m (fun _ => k))
  (at level 61, right associativity) : js_scope.

Local Open Scope string_scope.

(* ------------------------------------------------------------------ *)
(** ** Tasks and the CRUD layer *)

(** The task record of the client (the optional bookkeeping fields of the
    interface play no part in the voice component). *)
Record Todo : Type := mkTodo {
  id : string;
  title : string;
  description : string;
  due_date : string;
  priority : string
}.

(** The body of an update request. *)
Record Patch : Type := mkPatch {
  patch_title : Js.value;
  patch_description : Js.value;
  patch_priority : Js.value;
  patch_due_date : Js.value
}.

(** The three CRUD calls the voice component makes, with their arguments. *)
Inductive ApiCall : Type :=
| createTodo (title description priority due_date : Js.value)
| updateTodo (id : Js.value) (todo : Patch)
| deleteTodo (id : Js.value).

(** What leaves the bridge. *)
Inductive Effect : Type :=
| Api (c : ApiCall)
| OnUpdate
| ConsoleError (e : Js.Error).

(** The surroundings of one tool call: the clock, the answer of the CRUD
    layer (resolves, or rejects with an error) and the mirrored task list. *)
Record World : Type := mkWorld {
  now : Z;
  crud : ApiCall -> option Js.Error;
  todosRef : list Todo
}.

Definition api (w : World) (c : ApiCall) : Js.M Effect unit :=
  ([Api c], match crud w c with
            | None => Js.Normal tt
            | Some e => Js.Throw e
            end).

Definition onUpdate : Js.M Effect unit := Js.emit OnUpdate.

(** The double quote character of the messages. *)
Definition dq : string := String (ascii_of_nat 34) EmptyString.

Definition quoted (s : string) : string := (dq ++ s ++ dq)%string.

(* ------------------------------------------------------------------ *)
(** ** The tool-call bridge *)

(** A function call issued by the assistant: [fc.name] and [fc.args]. *)
Record FunctionCall : Type := mkCall {
  name : string;
  args : option Js.object
}.

(** What [get_todos] reports of a task. *)
Record TodoSummary : Type := mkSummary {
  sum_title : string;
  sum_priority : string;
  sum_due_date : string;
  sum_description : string
}.

(** The result object handed back to the assistant. *)
Inductive ToolResult : Type :=
| UnknownTool                                   (* { error: 'Unknown tool' } *)
| Todos (todos : list TodoSummary)              (* { todos: [...] } *)
| Status (status : string) (message : Js.value) (* { status, message } *).

(** The declared tools and their required parameters. *)
Definition toolDefinitions : list (string * list string) :=
  [ ("get_todos", []);
    ("create_todo", ["title"]);
    ("delete_todo", ["search_title"]);
    ("update_todo", ["search_title"]) ]%string.

Fixpoint required (defs : list (string * list string)) (tool : string)
  : list string :=
  match defs with
  | [] => []
  | (n, r) :: defs' => if String.eqb n tool then r else required defs' tool
  end.

Definition TypeError (what : string) : Js.Error :=
  Js.mkError (Js.Str ("Cannot read properties of undefined (reading '"
                        ++ what ++ "')")).

(** [o.k], which throws when [o] is [undefined]. *)
Definition prop (o : option Js.object) (k : string) : Js.M Effect Js.value :=
  match o with
  | Some o => Js.ret (Js.get o k)
  | None => Js.throw (TypeError k)
  end.

Section Bridge.

(** The two built-ins the bridge relies on: the case mapping of strings
    and the ISO 8601 rendering of a time in milliseconds. *)
Variable toLowerCase : string -> string.
Variable toISOString : Z -> string.

(** [v.toLowerCase()], which throws when [v] is not a string. *)
Definition lowered (v : Js.value) : Js.M Effect string :=
  match v with
  | Js.Str s => Js.ret (toLowerCase s)
  | _ => Js.throw (TypeError "toLowerCase")
  end.

(** [todosRef.current.filter(t => t.title.toLowerCase().includes(query))] *)
Definition matching (w : World) (query : string) : list Todo :=
  filter (fun t => Js.includes (toLowerCase (title t)) query) (todosRef w).

(** [matches[0]], whose fields cannot be read when it is missing. *)
Definition first_match (matches : list Todo) : Js.M Effect Todo :=
  match nth_error matches 0 with
  | Some t => Js.ret t
  | None => Js.throw (TypeError "id")
  end.

Definition summary (t : Todo) : TodoSummary :=
  mkSummary (title t) (priority t) (due_date t) (description t).

Definition handleToolCall (w : World) (fc : FunctionCall)
  : Js.M Effect ToolResult :=
  let args := args fc in
  Js.try_catch
    (if (name fc =? "get_todos")%string then
       Js.ret (Todos (map summary (todosRef w)))
     else if (name fc =? "create_todo")%string then
       (p <- prop args "priority" ;;
        let priority := Js.or p (Js.Str "medium") in
        d <- prop args "due_date" ;;
        let dueDate :=
          Js.or d (Js.Str (toISOString (now w + 86400000))) in
        t <- prop args "title" ;;
        ds <- prop args "description" ;;
        api w (createTodo t (Js.or ds (Js.Str EmptyString)) priority dueDate) ;;;
        onUpdate ;;;
        t' <- prop args "title" ;;
        Js.ret (Status "success"
                  (Js.Str ("Created task " ++ quoted (Js.toString t')))))%js
     else if (name fc =? "delete_todo")%string then
       (s <- prop args "search_title" ;;
        query <- lowered s ;;
        let matches := matching w query in
        if (List.length matches =? 0)%nat then
          Js.ret (Status "error" (Js.Str "No task found matching that name."))
        else if (1 <? List.length matches)%nat then
          Js.ret (Status "error"
                    (Js.Str ("Multiple tasks found: "
                             ++ String.concat ", " (map title matches)
                             ++ ". Please be more specific.")))
        else
          todo <- first_match matches ;;
          api w (deleteTodo (Js.Str (id todo))) ;;;
          onUpdate ;;;
          Js.ret (Status "success"
                    (Js.Str ("Deleted task " ++ quoted (title todo)))))%js
     else if (name fc =? "update_todo")%string then
       (s <- prop args "search_title" ;;
        query <- lowered s ;;
        let matches := matching w query in
        if (List.length matches =? 0)%nat then
          Js.ret (Status "error" (Js.Str "No task found matching that name."))
        else if (1 <? List.length matches)%nat then
          Js.ret (Status "error"
                    (Js.Str ("Multiple tasks found: "
                             ++ String.concat ", " (map title matches)
                             ++ ".")))
        else
          todo <- first_match matches ;;
          nt <- prop args "new_title" ;;
          nd <- prop args "new_description" ;;
          np <- prop args "new_priority" ;;
          ndue <- prop args "new_due_date" ;;
          api w (updateTodo (Js.Str (id todo))
                   (mkPatch (Js.or nt (Js.Str (title todo)))
                            (Js.or nd (Js.Str (description todo)))
                            (Js.or np (Js.Str (priority todo)))
                            (Js.or ndue (Js.Str (due_date todo))))) ;;;
          onUpdate ;;;
          Js.ret (Status "success"
                    (Js.Str ("Updated task " ++ quoted (title todo)))))%js
     else Js.ret UnknownTool)
    (fun e =>
       Js.ret (Status "error" (Js.or (Js.message e) (Js.Str "Action failed")))).

(** The action handler of the WebSocket component: it performs the CRUD
    call named by the backend and reports nothing back. *)
Definition handleAction (w : World) (action : string) (data : option Js.object)
  : Js.M Effect unit :=
  Js.try_catch
    (if (action =? "create_todo")%string then
       (p <- prop data "priority" ;;
        let priority := Js.or p (Js.Str "medium") in
        d <- prop data "due_date" ;;
        let dueDate := Js.or d Js.Null in
        t <- prop data "title" ;;
        ds <- prop data "description" ;;
        api w (createTodo t (Js.or ds (Js.Str EmptyString)) priority dueDate) ;;;
        onUpdate)%js
     else if (action =? "delete_todo")%string then
       (i <- prop data "id" ;;
        api w (deleteTodo i) ;;;
        onUpdate)%js
     else if (action =? "update_todo")%string then
       (i <- prop data "id" ;;
        t <- prop data "title" ;;
        ds <- prop data "description" ;;
        p <- prop data "priority" ;;
        d <- prop data "due_date" ;;
        api w (updateTodo i (mkPatch t ds p d)) ;;;
        onUpdate)%js
     else Js.ret tt)
    (fun e => Js.emit (ConsoleError e)).

End Bridge.

(** The two tasks of the running example. *)
Definition buy_milk : Todo :=
  mkTodo "1" "Buy Milk" "2% fat" "2026-01-01T00:00:00.000Z" "medium".
Definition buy_bread : Todo :=
  mkTodo "2" "Buy Bread" "rye" "2026-01-02T00:00:00.000Z" "low".

Definition example_world : World :=
  mkWorld 1700000000000 (fun _ => None) [buy_milk; buy_bread].

Definition search (tool q : string) : FunctionCall :=
  mkCall tool (Some [("search_title"%string, Js.Str q)]).

(** A rendering of times that is enough to run the examples: the decimal
    numeral of the milliseconds. *)
Definition stamp (ms : Z) : string :=
  DecimalString.NilZero.string_of_int (Z.to_int ms).

(* ------------------------------------------------------------------ *)
(** ** The audio codec *)

(** A sample of a [Float32Array]. A finite single-precision value is a
    dyadic rational, and its product with [0x8000] or [0x7fff] is exact in
    double precision (24 + 16 significant bits), as is the quotient of a
    16-bit integer by 32768; so the rationals carry the arithmetic of the
    conversion without rounding. *)
Inductive float : Type :=
| Finite (q : Q)
| PosInf
| NegInf
| NaN.

Definition Math_min (a b : float) : float :=
  match a, b with
  | NaN, _ | _, NaN => NaN
  | NegInf, _ | _, NegInf => NegInf
  | PosInf, x | x, PosInf => x
  | Finite p, Finite q => Finite (if Qle_bool p q then p else q)
  end.

Definition Math_max (a b : float) : float :=
  match a, b with
  | NaN, _ | _, NaN => NaN
  | PosInf, _ | _, PosInf => PosInf
  | NegInf, x | x, NegInf => x
  | Finite p, Finite q => Finite (if Qle_bool p q then q else p)
  end.

(** [s < 0] *)
Definition negative (s : float) : bool :=
  match s with
  | Finite q => negb (Qle_bool 0 q)
  | NegInf => true
  | PosInf | NaN => false
  end.

(** [s * k] for a positive integer constant [k] *)
Definition times (s : float) (k : Z) : float :=
  match s with
  | Finite q => Finite (q * inject_Z k)
  | other => other
  end.

(** Rounding towards zero. *)
Definition Qtrunc (q : Q) : Z :=
  if Qle_bool 0 q then Qfloor q else Qceiling q.

(** Reduction of an integer to the signed 16-bit range. *)
Definition wrap16 (z : Z) : Z := ((z + 32768) mod 65536 - 32768)%Z.

(** The conversion applied by a store into an [Int16Array]. *)
Definition ToInt16 (x : float) : Z :=
  match x with
  | Finite q => wrap16 (Qtrunc q)
  | PosInf | NegInf | NaN => 0%Z
  end.

(** One turn of the conversion loop:
    [s = Math.max(-1, Math.min(1, x)); pcm = s < 0 ? s * 0x8000 : s * 0x7fff] *)
Definition clamp (x : float) : float :=
  Math_max (Finite (-1)) (Math_min (Finite 1) x).

Definition pcm16 (x : float) : Z :=
  let s := clamp x in
  ToInt16 (if negative s then times s 32768 else times s 32767).

(** The bytes of an [Int16Array] buffer, low byte first. *)
Fixpoint buffer (pcmData : list Z) : list Z :=
  match pcmData with
  | [] => []
  | v :: rest => (v mod 256)%Z :: ((v / 256) mod 256)%Z :: buffer rest
  end.

(** [String.fromCharCode(b)]: the code unit of a one-character string. *)
Definition fromCharCode (b : Z) : Z := (b mod 65536)%Z.

Definition alphabet : string :=
  "ABCDEFGHIJKLMNOPQRSTUVWXYZabcdefghijklmnopqrstuvwxyz0123456789+/".

Definition pad : ascii := "="%char.

(** The character of a 6-bit group. *)
Definition sextet (n : Z) : ascii :=
  match String.get (Z.to_nat n) alphabet with
  | Some c => c
  | None => pad
  end.

(** Base64 of a sequence of bytes. *)
Fixpoint base64 (l : list Z) : string :=
  match l with
  | [] => EmptyString
  | [a] =>
      String (sextet (a / 4))
        (String (sextet (a mod 4 * 16))
           (String pad (String pad EmptyString)))
  | [a; b] =>
      String (sextet (a / 4))
        (String (sextet (a mod 4 * 16 + b / 16))
           (String (sextet (b mod 16 * 4)) (String pad EmptyString)))
  | a :: b :: c :: rest =>
      String (sextet (a / 4))
        (String (sextet (a mod 4 * 16 + b / 16))
           (String (sextet (b mod 16 * 4 + c / 64))
              (String (sextet (c mod 64)) (base64 rest))))
  end%Z.

Definition InvalidCharacterError : Js.Error :=
  Js.mkError (Js.Str "InvalidCharacterError").

(** [window.btoa(binary)], on the code units of [binary]: it throws when a
    code unit does not fit a byte. *)
Definition btoa {Ev} (binary : list Z) : Js.M Ev string :=
  if forallb (fun u => (u <=? 255)%Z) binary
  then Js.ret (base64 binary)
  else Js.throw InvalidCharacterError.

(** [arrayBufferToBase64]: the loop appends one character per byte. *)
Definition arrayBufferToBase64 {Ev} (bytes : list Z) : Js.M Ev string :=
  let binary := map fromCharCode bytes in
  btoa binary.

(** The conversion of one captured chunk to its wire form. *)
Definition encode {Ev} (inputData : list float) : Js.M Ev string :=
  let pcmData := map pcm16 inputData in
  arrayBufferToBase64 (buffer pcmData).

(** The value of a Base64 character, if it is one. *)
Fixpoint index_of (c : ascii) (s : string) (i : Z) : option Z :=
  match s with
  | EmptyString => None
  | String c' s' => if Ascii.eqb c c' then Some i else index_of c s' (i + 1)%Z
  end.

Definition unsextet (c : ascii) : option Z := index_of c alphabet 0.

(** Modelled from the spec: [base64ToUint8Array] of the audio utilities,
    which are not among the sources; it "reverses the base64 step". Groups
    of four characters give three bytes; padding may end the last group. *)
Fixpoint unbase64 (s : string) : option (list Z) :=
  match s with
  | EmptyString => Some []
  | String c1 (String c2 (String c3 (String c4 rest))) =>
      match unsextet c1, unsextet c2 with
      | Some v1, Some v2 =>
          let b1 := (v1 * 4 + v2 / 16)%Z in
          match rest, Ascii.eqb c4 pad, Ascii.eqb c3 pad with
          | EmptyString, true, true => Some [b1]
          | EmptyString, true, false =>
              match unsextet c3 with
              | Some v3 => Some [b1; (v2 mod 16 * 16 + v3 / 4)%Z]
              | None => None
              end
          | _, _, _ =>
              match unsextet c3, unsextet c4, unbase64 rest with
              | Some v3, Some v4, Some bytes =>
                  Some (b1 :: (v2 mod 16 * 16 + v3 / 4)%Z
                           :: (v3 mod 4 * 64 + v4)%Z :: bytes)
              | _, _, _ => None
              end
          end
      | _, _ => None
      end
  | _ => None
  end.

(** Modelled from the spec: the bytes of a wire string, if it is Base64. *)
Definition base64ToUint8Array (wire : string) : option (list Z) :=
  unbase64 wire.

(** Modelled from the spec: the "signed 16-bit little-endian samples" of a
    byte sequence (a trailing odd byte belongs to no sample). *)
Fixpoint int16s (bytes : list Z) : list Z :=
  match bytes with
  | lo :: hi :: rest => wrap16 (lo + 256 * hi) :: int16s rest
  | _ => []
  end.

(** Modelled from the spec: the playable buffer, "tagged with the given
    sample rate/channel count". *)
Record AudioBuffer : Type := mkBuffer {
  sampleRate : Z;
  numberOfChannels : Z;
  samples : list Q
}.

Inductive decoded : Type :=
| Playable (b : AudioBuffer)
| DecodeError.

(** Modelled from the spec: [decodeAudioData] of the audio utilities, which
    are not among the sources. It "reinterprets bytes as signed 16-bit
    little-endian samples, rescales to floating range [-1, 1], and
    materializes a buffer tagged with the given sample rate/channel count",
    and "fails with a DecodeError if the byte length is not a multiple of 2
    bytes per channel". The rescaling divides by 32768, the quantization
    step of the format. *)
Definition decodeAudioData (data : list Z) (rate channels : Z) : decoded :=
  if (Z.of_nat (List.length data) mod (2 * channels) =? 0)%Z
  then Playable (mkBuffer rate channels
                   (map (fun v => inject_Z v / 32768)%Q (int16s data)))
  else DecodeError.

(** Modelled from the spec: [decode(wireBytes, targetSampleRate,
    channelCount)], the composition of the two steps above. *)
Definition decode (wire : string) (rate channels : Z) : decoded :=
  match base64ToUint8Array wire with
  | Some data => decodeAudioData data rate channels
  | None => DecodeError
  end.

(** Decoding what [encode] produced, at the playback rate. *)
Definition roundtrip (x : list float) : option (list Q) :=
  match @encode unit x with
  | (_, Js.Normal wire) =>
      match decode wire 24000 1 with
      | Playable b => Some (samples b)
      | DecodeError => None
      end
  | (_, Js.Throw _) => None
  end.

(** The clamped value of a sample that has one. *)
Definition clamped (x : float) : option Q :=
  match clamp x with
  | Finite q => Some q
  | _ => None
  end.

(* ------------------------------------------------------------------ *)
(** ** The session: socket, audio graphs and playback *)

(** Times of the audio clock. The component only compares them, adds a
    duration and resets to zero; the laws below are those of the
    floating-point numbers it meets (no NaN): the order is total and adding
    a non-negative duration does not go back in time. *)
Class Clock (T : Type) : Type := {
  zero : T;
  add : T -> T -> T;
  leb : T -> T -> bool
}.

Class ClockLaws (T : Type) `{Clock T} : Prop := {
  leb_refl : forall a, leb a a = true;
  leb_trans : forall a b c, leb a b = true -> leb b c = true -> leb a c = true;
  leb_total : forall a b, leb a b = true \/ leb b a = true;
  add_nonneg : forall s d, leb zero d = true -> leb s (add s d) = true
}.

(** [Math.max(a, b)] on times. *)
Definition later {T} `{Clock T} (a b : T) : T := if leb a b then b else a.

#[export] Instance Clock_Z : Clock Z :=
  {| zero := 0%Z; add := Z.add; leb := Z.leb |}.

#[export] Instance Clock_Q : Clock Q :=
  {| zero := 0%Q; add := Qplus; leb := Qle_bool |}.

Inductive ReadyState : Type := CONNECTING | OPEN | CLOSING | CLOSED.

Definition ReadyState_eqb (a b : ReadyState) : bool :=
  match a, b with
  | CONNECTING, CONNECTING | OPEN, OPEN | CLOSING, CLOSING | CLOSED, CLOSED => true
  | _, _ => false
  end.

(** A socket object: its identity and its state. *)
Record WebSocket : Type := mkSocket {
  ws_id : nat;
  readyState : ReadyState
}.

(** An audio graph. *)
Record AudioContext : Type := mkContext {
  ctx_id : nat
}.

(** A connected SDK session, as the promise kept in [sessionRef] settles:
    it resolves to the session, or the connection failed and it rejects. *)
Record LiveSession : Type := mkLive {
  live_id : nat;
  rejects : option Js.Error
}.

(** A buffer source of the output graph; [stop()] is only legal on a source
    that has been started. *)
Record AudioBufferSourceNode : Type := mkSource {
  source_id : nat;
  source_started : bool
}.

(** A frame on the wire. *)
Inductive Frame : Type :=
| AudioFrame (data : string).    (* { type: 'audio', data } *)

(** The calls that leave the component, in the order they are made. *)
Inductive Io (T : Type) : Type :=
| WsSend (ws : nat) (f : Frame)
| WsClose (ws : nat)
| CtxClose (ctx : nat)
| SessionClose (session : nat)
| SourceStart (source : nat) (when : T) (duration : T)
| SourceStop (source : nat)
| Console (e : Js.Error).
Arguments WsSend {T} ws f.
Arguments WsClose {T} ws.
Arguments CtxClose {T} ctx.
Arguments SessionClose {T} session.
Arguments SourceStart {T} source when duration.
Arguments SourceStop {T} source.
Arguments Console {T} e.

Definition InvalidStateError : Js.Error :=
  Js.mkError (Js.Str "InvalidStateError").

(** The component state: the two flags and the volume of the view, and the
    mutable cells. The WebSocket component keeps its socket in [wsRef], the
    SDK component its session in [sessionRef]. *)
Record Session (T : Type) : Type := mkSession {
  isActive : bool;
  isConnecting : bool;
  volume : float;
  wsRef : option WebSocket;
  sessionRef : option LiveSession;
  inputContextRef : option AudioContext;
  outputContextRef : option AudioContext;
  nextStartTimeRef : T;
  audioSourcesRef : list AudioBufferSourceNode;
  created : nat
}.
Arguments mkSession {T}.
Arguments isActive {T}.
Arguments isConnecting {T}.
Arguments volume {T}.
Arguments wsRef {T}.
Arguments sessionRef {T}.
Arguments inputContextRef {T}.
Arguments outputContextRef {T}.
Arguments nextStartTimeRef {T}.
Arguments audioSourcesRef {T}.
Arguments created {T}.

(** The transport state the two flags stand for. *)
Inductive TransportState : Type := Disconnected | Connecting | Active.

Definition transport {T} (s : Session T) : TransportState :=
  if isActive s then Active
  else if isConnecting s then Connecting
  else Disconnected.

Definition is_set {A} (ref : option A) : bool :=
  match ref with
  | Some _ => true
  | None => false
  end.

Section Cells.

Context {T : Type}.

(** Assignments to the cells and calls of the state setters. *)
Definition setIsActive (b : bool) (s : Session T) : Session T :=
  mkSession b (isConnecting s) (volume s) (wsRef s) (sessionRef s)
    (inputContextRef s) (outputContextRef s) (nextStartTimeRef s)
    (audioSourcesRef s) (created s).

Definition setIsConnecting (b : bool) (s : Session T) : Session T :=
  mkSession (isActive s) b (volume s) (wsRef s) (sessionRef s)
    (inputContextRef s) (outputContextRef s) (nextStartTimeRef s)
    (audioSourcesRef s) (created s).

Definition setVolume (v : float) (s : Session T) : Session T :=
  mkSession (isActive s) (isConnecting s) v (wsRef s) (sessionRef s)
    (inputContextRef s) (outputContextRef s) (nextStartTimeRef s)
    (audioSourcesRef s) (created s).

Definition set_wsRef (r : option WebSocket) (s : Session T) : Session T :=
  mkSession (isActive s) (isConnecting s) (volume s) r (sessionRef s)
    (inputContextRef s) (outputContextRef s) (nextStartTimeRef s)
    (audioSourcesRef s) (created s).

Definition set_sessionRef (r : option LiveSession) (s : Session T)
  : Session T :=
  mkSession (isActive s) (isConnecting s) (volume s) (wsRef s) r
    (inputContextRef s) (outputContextRef s) (nextStartTimeRef s)
    (audioSourcesRef s) (created s).

Definition set_inputContextRef (r : option AudioContext) (s : Session T)
  : Session T :=
  mkSession (isActive s) (isConnecting s) (volume s) (wsRef s) (sessionRef s)
    r (outputContextRef s) (nextStartTimeRef s)
    (audioSourcesRef s) (created s).

Definition set_outputContextRef (r : option AudioContext) (s : Session T)
  : Session T :=
  mkSession (isActive s) (isConnecting s) (volume s) (wsRef s) (sessionRef s)
    (inputContextRef s) r (nextStartTimeRef s)
    (audioSourcesRef s) (created s).

Definition set_nextStartTimeRef (t : T) (s : Session T) : Session T :=
  mkSession (isActive s) (isConnecting s) (volume s) (wsRef s) (sessionRef s)
    (inputContextRef s) (outputContextRef s) t
    (audioSourcesRef s) (created s).

Definition set_audioSourcesRef (l : list AudioBufferSourceNode)
    (s : Session T) : Session T :=
  mkSession (isActive s) (isConnecting s) (volume s) (wsRef s) (sessionRef s)
    (inputContextRef s) (outputContextRef s) (nextStartTimeRef s)
    l (created s).

(** [ctx.createBufferSource()]: a new node, not yet started. *)
Definition createBufferSource (s : Session T)
  : AudioBufferSourceNode * Session T :=
  (mkSource (created s) false,
   mkSession (isActive s) (isConnecting s) (volume s) (wsRef s)
     (sessionRef s) (inputContextRef s) (outputContextRef s)
     (nextStartTimeRef s) (audioSourcesRef s) (S (created s))).

(** A handler: it reads and updates the state, makes outside calls, and
    returns or throws; the state it leaves is kept in both cases. *)
Definition Op (A : Type) : Type :=
  Session T -> (list (Io T) * Js.completion A * Session T).

Definition op_ret {A} (a : A) : Op A := fun s => ([], Js.Normal a, s).

Definition op_bind {A B} (m : Op A) (k : A -> Op B) : Op B :=
  fun s =>
    match m s with
    | (t, Js.Normal a, s1) => let '(t', r, s2) := k a s1 in ((t ++ t')%list, r, s2)
    | (t, Js.Throw e, s1) => (t, Js.Throw e, s1)
    end.

Definition lift {A} (m : Js.M (Io T) A) : Op A :=
  fun s => (Js.trace m, Js.outcome m, s).

Definition read : Op (Session T) := fun s => ([], Js.Normal s, s).

Definition update (f : Session T -> Session T) : Op unit :=
  fun s => ([], Js.Normal tt, f s).

Definition op_try {A} (m : Op A) (h : Js.Error -> Op A) : Op A :=
  fun s =>
    match m s with
    | (t, Js.Normal a, s1) => (t, Js.Normal a, s1)
    | (t, Js.Throw e, s1) => let '(t', r, s2) := h e s1 in ((t ++ t')%list, r, s2)
    end.

(** [collection.forEach(f)] *)
Fixpoint forEach {A} (l : list A) (f : A -> Op unit) : Op unit :=
  match l with
  | [] => op_ret tt
  | a :: l' => op_bind (f a) (fun _ => forEach l' f)
  end.

End Cells.

Declare Scope op_scope.
Delimit Scope op_scope with op.
Notation "x <- m ;; k" := (op_bind m (fun x => k))
  (at level 61, m at next level, right associativity) : op_scope.
Notation "m ;;; k" := (op_bind m (fun _ => k))
  (at level 61, right associativity) : op_scope.

Section Pipelines.

Context {T : Type} `{Clock T}.

(** The state of a freshly mounted component. *)
Definition mounted : Session T :=
  mkSession false false (Finite 0) None None None None zero [] 0.

(** [ws.send(data)]: an error while the socket is still connecting, a
    transmission when it is open, nothing once it is closing or closed. *)
Definition send (ws : WebSocket) (f : Frame) : Js.M (Io T) unit :=
  match readyState ws with
  | CONNECTING => Js.throw InvalidStateError
  | OPEN => Js.emit (WsSend (ws_id ws) f)
  | CLOSING | CLOSED => Js.ret tt
  end.

(** [source.stop()] *)
Definition stop (source : AudioBufferSourceNode) : Js.M (Io T) unit :=
  if source_started source
  then Js.emit (SourceStop (source_id source))
  else Js.throw InvalidStateError.

(** The volume estimate of a chunk (the root mean square of its samples,
    times 100), which the view shows. *)
Variable rms : list float -> float.

(** The guarded transmission that ends the capture handler. *)
Definition send_audio (ws : WebSocket) (base64Audio : string) : Op (T:=T) unit :=
  if ReadyState_eqb (readyState ws) OPEN
  then lift (send ws (AudioFrame base64Audio))
  else op_ret tt.

(** The capture handler of the WebSocket component, registered with the
    socket [ws] it closes over. *)
Definition onaudioprocess (ws : WebSocket) (inputData : list float)
  : Op (T:=T) unit :=
  (update (setVolume (rms inputData)) ;;;
   base64Audio <- lift (encode inputData) ;;
   send_audio ws base64Audio)%op.

(** The audio branch of the message handler, up to the point where it
    waits for the decoder: when there is data and an output graph, the
    play head catches up with the clock. The result tells whether the
    branch was taken. *)
Definition audio_received (has_data : bool) (currentTime : T)
  : Op (T:=T) bool :=
  (s <- read ;;
   if has_data && is_set (outputContextRef s)
   then update (set_nextStartTimeRef
                  (later (nextStartTimeRef s) currentTime)) ;;;
        op_ret true
   else op_ret false)%op.

(** The rest of the audio branch, once the buffer of the given duration is
    decoded: a new source starts at the play head, the play head advances
    by the duration, and the source joins the in-flight set. *)
Definition audio_decoded (duration : T) : Op (T:=T) unit :=
  (s <- read ;;
   let '(source, s) := createBufferSource s in
   update (fun _ => s) ;;;
   lift (Js.emit (SourceStart (source_id source) (nextStartTimeRef s) duration)) ;;;
   let source := mkSource (source_id source) true in
   update (set_nextStartTimeRef (add (nextStartTimeRef s) duration)) ;;;
   s <- read ;;
   update (set_audioSourcesRef (audioSourcesRef s ++ [source])%list))%op.

(** One whole pass through the audio branch. *)
Definition enqueue (currentTime duration : T) : Op (T:=T) unit :=
  (taken <- audio_received true currentTime ;;
   if taken then audio_decoded duration else op_ret tt)%op.

(** The listener of the [ended] event of a source. *)
Definition ended (source : nat) : Op (T:=T) unit :=
  update (fun s =>
    set_audioSourcesRef
      (filter (fun n => negb (source_id n =? source)%nat)
         (audioSourcesRef s)) s).

(** The interruption branch of the message handler. *)
Definition interrupt : Op (T:=T) unit :=
  (s <- read ;;
   forEach (audioSourcesRef s)
     (fun source => op_try (lift (stop source)) (fun _ => op_ret tt)) ;;;
   update (set_audioSourcesRef []) ;;;
   update (set_nextStartTimeRef zero))%op.

(** [stopSession] of the WebSocket component. *)
Definition stopSession : Op (T:=T) unit :=
  (update (setIsActive false) ;;;
   update (setIsConnecting false) ;;;
   update (setVolume (Finite 0)) ;;;
   s <- read ;;
   match wsRef s with
   | Some ws =>
       lift (Js.emit (WsClose (ws_id ws))) ;;;
       update (set_wsRef None)
   | None => op_ret tt
   end ;;;
   s <- read ;;
   match inputContextRef s with
   | Some ctx =>
       lift (Js.emit (CtxClose (ctx_id ctx))) ;;;
       update (set_inputContextRef None)
   | None => op_ret tt
   end ;;;
   s <- read ;;
   match outputContextRef s with
   | Some ctx =>
       lift (Js.emit (CtxClose (ctx_id ctx))) ;;;
       update (set_outputContextRef None)
   | None => op_ret tt
   end ;;;
   s <- read ;;
   forEach (audioSourcesRef s) (fun source => lift (stop source)) ;;;
   update (set_audioSourcesRef []))%op.

(** Running a sequence of handlers one after the other. *)
Fixpoint run (ops : list (Op (T:=T) unit)) : Op (T:=T) unit :=
  match ops with
  | [] => op_ret tt
  | o :: ops' => (o ;;; run ops')%op
  end.

(** The sources scheduled by a trace: start time and duration, in the
    order the calls were made. *)
Fixpoint scheduled (t : list (Io T)) : list (T * T) :=
  match t with
  | [] => []
  | SourceStart _ when duration :: t' => (when, duration) :: scheduled t'
  | _ :: t' => scheduled t'
  end.

(** Every source of the in-flight set has been started. *)
Definition in_flight_started (s : Session T) : Prop :=
  Forall (fun n => source_started n = true) (audioSourcesRef s).

End Pipelines.

(** The SDK component, where it differs from the WebSocket component. *)
Module Live.
Section Live.

Context {T : Type}.


(** [stopSession] of the SDK component is an async function. This is the
    part it runs when it is called, up to [await sessionRef.current]: it
    yields the promise the invocation then waits for, or nothing when there
    is no session, and then the invocation is over. *)
Definition stopSession_begin : Op (T:=T) (option LiveSession) :=
  (update (setIsActive false) ;;;
   update (setIsConnecting false) ;;;
   update (setVolume (Finite 0)) ;;;
   s <- read ;;
   match inputContextRef s with
   | Some ctx =>
       lift (Js.emit (CtxClose (ctx_id ctx))) ;;;
       update (set_inputContextRef None)
   | None => op_ret tt
   end ;;;
   s <- read ;;
   match outputContextRef s with
   | Some ctx =>
       lift (Js.emit (CtxClose (ctx_id ctx))) ;;;
       update (set_outputContextRef None)
   | None => op_ret tt
   end ;;;
   s <- read ;;
   forEach (audioSourcesRef s) (fun source => lift (stop source)) ;;;
   update (set_audioSourcesRef []) ;;;
   s <- read ;;
   op_ret (sessionRef s))%op.

(** The part that runs once the awaited promise has settled, on the state
    the component is in by then: [session.close()] or the catch branch,
    then [sessionRef.current = null]. While the promise is pending this
    part has not run. *)
Definition stopSession_resume (promise : LiveSession) : Op (T:=T) unit :=
  (op_try
     (match rejects promise with
      | Some e => lift (Js.throw e)
      | None => lift (Js.emit (SessionClose (live_id promise)))
      end)
     (fun e => lift (Js.emit (Console e))) ;;;
   update (set_sessionRef None))%op.

(** One invocation followed to its end with nothing in between: the
    promise has settled and no other handler runs before the second part.
    The callers do not await the function; what they get when they call it
    several times before it resumes is [in_a_row]. *)
Definition stopSession : Op (T:=T) unit :=
  (awaited <- stopSession_begin ;;
   match awaited with
   | Some promise => stopSession_resume promise
   | None => op_ret tt
   end)%op.




End Live.
End Live.

Section Reachability.

Context {T : Type} `{Clock T}.

(** The states the component goes through: the in-flight set is touched
    by the audio branch, the [ended] listener, the interruption branch and
    the two [stopSession] functions; every other handler leaves it as it
    is. *)
Inductive reachable : Session T -> Prop :=
| reach_mounted : reachable mounted
| reach_other s s' :
    reachable s -> audioSourcesRef s' = audioSourcesRef s -> reachable s'
| reach_received s b now :
    reachable s -> reachable (snd (audio_received b now s))
| reach_decoded s d :
    reachable s -> reachable (snd (audio_decoded d s))
| reach_ended s n :
    reachable s -> reachable (snd (ended n s))
| reach_interrupt s :
    reachable s -> reachable (snd (interrupt s))
| reach_stop s :
    reachable s -> reachable (snd (stopSession s))
| reach_stop_live s :
    reachable s -> reachable (snd (Live.stopSession s)).

End Reachability.

(* ------------------------------------------------------------------ *)
(** ** Vocabulary of the statements *)

(** A computation is _fail-fast_ when a rejected CRUD call of its trace is
    what it throws. *)
Definition fail_fast {A} (w : World) (m : Js.M Effect A) : Prop :=
  forall c e, In (Api c) (Js.trace m) -> crud w c = Some e ->
              Js.outcome m = Js.Throw e.

(** A CRUD layer that rejects every call with the given error. *)
Definition rejecting (e : Js.Error) : World :=
  mkWorld 1700000000000 (fun _ => Some e) [buy_milk; buy_bread].

Definition titled_milk : Js.object := [("title", Js.Str "Buy Milk")].

(** An update that asks for an empty title and an empty description. *)
Definition blanking : Js.object :=
  [("search_title", Js.Str "milk");
   ("new_title", Js.Str EmptyString);
   ("new_description", Js.Str EmptyString);
   ("new_priority", Js.Str "high")].

Definition no_match : ToolResult :=
  Status "error" (Js.Str "No task found matching that name.").

Definition several (titles : list string) (ending : string) : ToolResult :=
  Status "error"
    (Js.Str ("Multiple tasks found: " ++ String.concat ", " titles ++ ending)).

(** The update request built from the arguments [o] for the task [t]. *)
Definition update_of (o : Js.object) (t : Todo) : ApiCall :=
  updateTodo (Js.Str (id t))
    (mkPatch (Js.or (Js.get o "new_title") (Js.Str (title t)))
             (Js.or (Js.get o "new_description") (Js.Str (description t)))
             (Js.or (Js.get o "new_priority") (Js.Str (priority t)))
             (Js.or (Js.get o "new_due_date") (Js.Str (due_date t)))).

(** What the bridge answers after the CRUD call [c]. *)
Definition after_call (w : World) (c : ApiCall) (done : string)
  : Js.M Effect ToolResult :=
  match crud w c with
  | None => ([Api c; OnUpdate], Js.Normal (Status "success" (Js.Str done)))
  | Some e =>
      ([Api c],
       Js.Normal (Status "error" (Js.or (Js.message e) (Js.Str "Action failed"))))
  end.

Definition is_byte (b : Z) : Prop := (0 <= b < 256)%Z.
Definition is_int16 (v : Z) : Prop := (-32768 <= v <= 32767)%Z.

(** The sixty-four 6-bit groups. *)
Definition sextets : list Z := map Z.of_nat (seq 0 64).

(** The sample played back for a captured sample. *)
Definition replayed (x : float) : Q := (inject_Z (pcm16 x) / 32768)%Q.

Section Results.

Context {T : Type} {A : Type}.

(** The three parts of what a handler leaves behind. *)
Definition calls (r : list (Io T) * Js.completion A * Session T) : list (Io T) :=
  fst (fst r).

Definition completed (r : list (Io T) * Js.completion A * Session T)
  : Js.completion A :=
  snd (fst r).

Definition state (r : list (Io T) * Js.completion A * Session T) : Session T :=
  snd r.

End Results.

Section Schedules.

Context {T : Type} `{Clock T}.

(** Every start of the list is at or after the end of the source before
    it, the first one at or after [bound]. *)
Fixpoint follows (bound : T) (l : list (T * T)) : Prop :=
  match l with
  | [] => True
  | (when, duration) :: l' =>
      leb bound when = true /\ follows (add when duration) l'
  end.

(** No source starts before the previous one has ended. *)
Definition gapless (l : list (T * T)) : Prop :=
  match l with
  | [] => True
  | (when, duration) :: l' => follows (add when duration) l'
  end.

Fixpoint rising (bound : T) (l : list T) : Prop :=
  match l with
  | [] => True
  | t :: l' => leb bound t = true /\ rising t l'
  end.

(** The start times never go back. *)
Definition nondecreasing (l : list T) : Prop :=
  match l with
  | [] => True
  | t :: l' => rising t l'
  end.

(** The two halves of the audio branch, as they may interleave when several
    messages are being handled. *)
Inductive AudioStep : Type :=
| Received (currentTime : T)
| Decoded (duration : T).

Definition audio_step (e : AudioStep) : Op (T:=T) unit :=
  match e with
  | Received currentTime =>
      op_bind (audio_received true currentTime) (fun _ => op_ret tt)
  | Decoded duration => audio_decoded duration
  end.

Definition step_duration_ok (e : AudioStep) : Prop :=
  match e with
  | Received _ => True
  | Decoded duration => leb zero duration = true
  end.

(** The state [stopSession] of the WebSocket component leaves. *)
Definition stopped (s : Session T) : Session T :=
  mkSession false false (Finite 0) None (sessionRef s) None None
    (nextStartTimeRef s) [] (created s).

(** The state [stopSession] of the SDK component leaves. *)
Definition stopped_live (s : Session T) : Session T :=
  mkSession false false (Finite 0) (wsRef s) None None None
    (nextStartTimeRef s) [] (created s).

(** The state the first part of [stopSession] of the SDK component leaves:
    the session reference is still there. *)
Definition stopping_live (s : Session T) : Session T :=
  mkSession false false (Finite 0) (wsRef s) (sessionRef s) None None
    (nextStartTimeRef s) [] (created s).

Definition close_of (ctx : option AudioContext) : list (Io T) :=
  match ctx with
  | Some c => [CtxClose (ctx_id c)]
  | None => []
  end.

Definition stops_of (l : list AudioBufferSourceNode) : list (Io T) :=
  map (fun n => SourceStop (source_id n)) l.

(** The state after one pass through the audio branch. *)
Definition enqueued (currentTime duration : T) (s : Session T) : Session T :=
  mkSession (isActive s) (isConnecting s) (volume s) (wsRef s) (sessionRef s)
    (inputContextRef s) (outputContextRef s)
    (add (later (nextStartTimeRef s) currentTime) duration)
    (audioSourcesRef s ++ [mkSource (created s) true])%list
    (S (created s)).

(** The sources of [l] follow one another from [bound] on, and the last of
    them ends at or before [finish]. *)
Fixpoint reaches (bound : T) (l : list (T * T)) (finish : T) : Prop :=
  match l with
  | [] => leb bound finish = true
  | (when, duration) :: l' =>
      leb bound when = true /\ reaches (add when duration) l' finish
  end.

Definition ws_close_of (ws : option WebSocket) : list (Io T) :=
  match ws with
  | Some w => [WsClose (ws_id w)]
  | None => []
  end.

Definition session_close_of (p : option LiveSession) : list (Io T) :=
  match p with
  | Some promise =>
      match rejects promise with
      | Some e => [Console e]
      | None => [SessionClose (live_id promise)]
      end
  | None => []
  end.

End Schedules.

(** A burst: three buffers arrive while the clock hardly moves, then one
    arrives late. *)
Definition burst : list (Z * Z) := [(5, 3); (5, 2); (6, 4); (40, 1)]%Z.

Definition listening : Session Z :=
  set_outputContextRef (Some (mkContext 1)) mounted.

(** A session in the middle of a reply: socket open, both audio graphs up,
    one buffer playing. *)
Definition talking : Session Z :=
  mkSession true false (Finite 0) (Some (mkSocket 1 OPEN)) None
    (Some (mkContext 2)) (Some (mkContext 3)) 0%Z [] 0.

Definition replying : Session Z := snd (audio_decoded 5%Z talking).

(** A session of the SDK component in the middle of a reply: the session
    promise fulfilled, both audio graphs up, one buffer playing. *)
Definition answering : Session Z :=
  snd (audio_decoded 5%Z
         (mkSession true false (Finite 0) None (Some (mkLive 5 None))
            (Some (mkContext 1)) (Some (mkContext 2)) 0%Z [] 0)).

(* ================================================================== *)
(** * Further parts of the components *)

(* ------------------------------------------------------------------ *)
(** ** The tool-call loop of the SDK component *)

(** A function call as it arrives in a [toolCall] message: [fc.id] beside
    [fc.name] and [fc.args]. *)
Record ToolCall : Type := mkToolCall {
  fc_id : Js.value;
  fc : FunctionCall
}.

(** What leaves the message handler while it answers tool calls: the
    effects of the bridge, and the responses handed to the session. *)
Inductive LiveEffect : Type :=
| FromBridge (e : Effect)
| ToolResponse (id : Js.value) (name : string) (result : ToolResult).

(** The effects of the bridge, seen from the message handler. *)
Definition from_bridge {A} (m : Js.M Effect A) : Js.M LiveEffect A :=
  (map FromBridge (Js.trace m), Js.outcome m).

Section ToolCalls.

Variable toLowerCase : string -> string.
Variable toISOString : Z -> string.

(** [for (const fc of msg.toolCall.functionCalls)]: each call is handled,
    then its response is handed to the session; the session promise is
    resolved once messages arrive, so the responses leave in the order
    they are queued. The surroundings may change between two calls;
    [worlds k] is what the call number [k] finds. *)
Fixpoint answer_calls (worlds : nat -> World) (k : nat) (calls : list ToolCall)
  : Js.M LiveEffect unit :=
  match calls with
  | [] => Js.ret tt
  | c :: rest =>
      (result <- from_bridge
                   (handleToolCall toLowerCase toISOString (worlds k) (fc c)) ;;
       Js.emit (ToolResponse (fc_id c) (name (fc c)) result) ;;;
       answer_calls worlds (S k) rest)%js
  end.

End ToolCalls.

(** The responses of a trace: id and name, in the order they were sent. *)
Fixpoint responses (t : list LiveEffect) : list (Js.value * string) :=
  match t with
  | [] => []
  | ToolResponse id name _ :: t' => (id, name) :: responses t'
  | FromBridge _ :: t' => responses t'
  end.

(** A tool call makes no outside call, or one CRUD call that is accepted
    and followed by the refresh, or one CRUD call that is rejected; only
    the second ends in a success. *)
Definition refresh_follows_success (w : World) (m : Js.M Effect ToolResult)
  : Prop :=
  (Js.trace m = []
   /\ exists r, Js.outcome m = Js.Normal r
                /\ forall msg, r <> Status "success" msg)
  \/ (exists c msg,
         Js.trace m = [Api c; OnUpdate] /\ crud w c = None
         /\ Js.outcome m = Js.Normal (Status "success" msg))
  \/ (exists c e,
         Js.trace m = [Api c] /\ crud w c = Some e
         /\ Js.outcome m
            = Js.Normal (Status "error"
                           (Js.or (Js.message e) (Js.Str "Action failed")))).

(** An action makes no outside call, or logs the error of a malformed
    request, or makes one CRUD call followed by the refresh when it is
    accepted and by the log of its error when it is rejected. *)
Definition action_sequenced (w : World) (m : Js.M Effect unit) : Prop :=
  Js.outcome m = Js.Normal tt
  /\ (Js.trace m = []
      \/ (exists e, Js.trace m = [ConsoleError e])
      \/ (exists c, Js.trace m = [Api c; OnUpdate] /\ crud w c = None)
      \/ (exists c e, Js.trace m = [Api c; ConsoleError e]
                      /\ crud w c = Some e)).

(** The result never is the unknown-tool one. *)
Definition answers (m : Js.M Effect ToolResult) : Prop :=
  Js.outcome m <> Js.Normal UnknownTool.

(** The request [o] holds no usable search string. *)
Definition no_search_string (a : option Js.object) : Prop :=
  match a with
  | None => True
  | Some o => forall q, Js.get o "search_title" <> Js.Str q
  end.

(* ------------------------------------------------------------------ *)
(** ** Vocabulary of the further statements on playback *)

Section Tightness.

Context {T : Type} `{Clock T}.



End Tightness.

(* ------------------------------------------------------------------ *)
(** ** The address of the voice endpoint *)

(** [s.startsWith(p)] *)
Definition startsWith (s p : string) : bool := String.prefix p s.

(** The string without its first [n] characters. *)
Fixpoint drop (n : nat) (s : string) : string :=
  match n, s with
  | O, _ => s
  | S _, EmptyString => EmptyString
  | S n', String _ s' => drop n' s'
  end.

(** [s.replace(/^https?:\/\//, '')]: a leading "http://" or "https://" is
    removed. *)
Definition strip_scheme (s : string) : string :=
  if startsWith s "https://" then drop 8 s
  else if startsWith s "http://" then drop 7 s
  else s.

(** [env || 'http://localhost:8000'], for the configured base address: it
    is not set, or it is a string, and the empty string counts as not
    set. *)
Definition base_url (VITE_API_URL : option string) : string :=
  match VITE_API_URL with
  | Some (String c s) => String c s
  | _ => "http://localhost:8000"
  end.

Definition getWebSocketUrl (VITE_API_URL : option string) : string :=
  let apiUrl := base_url VITE_API_URL in
  let wsProtocol := if startsWith apiUrl "https" then "wss" else "ws" in
  let wsHost := strip_scheme apiUrl in
  wsProtocol ++ "://" ++ wsHost ++ "/api/ai/voice/stream".

(* ------------------------------------------------------------------ *)
(** ** The REST client *)

(** The bodies of requests and responses. Of a number only its printed
    form and whether it is zero matter here. *)
Module Json.

#[local] Set Warnings "-register-all".

Inductive t : Type :=
| Null
| Bool (b : bool)
| Num (zero : bool) (shown : string)
| Str (s : string)
| Arr (elements : list t)
| Obj (fields : list (string * t)).

Fixpoint lookup (fields : list (string * t)) (k : string) : option t :=
  match fields with
  | [] => None
  | (k', v) :: fields' => if String.eqb k' k then Some v else lookup fields' k
  end.

(** [j.k]: it throws on [null]; it is [undefined] where there is no such
    property. *)
Definition prop (j : t) (k : string) : Js.completion (option t) :=
  match j with
  | Null => Js.Throw (TypeError k)
  | Obj fields => Js.Normal (lookup fields k)
  | _ => Js.Normal None
  end.

Definition truthy (j : t) : bool :=
  match j with
  | Null => false
  | Bool b => b
  | Num zero _ => negb zero
  | Str EmptyString => false
  | Str (String _ _) => true
  | Arr _ | Obj _ => true
  end.

(** String conversion; the elements of an array are joined by commas, a
    [null] among them printing as nothing. *)
Fixpoint toString (j : t) : string :=
  match j with
  | Null => "null"
  | Bool true => "true"
  | Bool false => "false"
  | Num _ shown => shown
  | Str s => s
  | Arr elements =>
      String.concat ","
        (map (fun e => match e with
                       | Null => EmptyString
                       | _ => toString e
                       end) elements)
  | Obj _ => "[object Object]"
  end.

(** The part an element takes in [array.join(sep)]. *)
Definition joined (e : option t) : string :=
  match e with
  | None | Some Null => EmptyString
  | Some j => toString j
  end.

End Json.

Module Rest.

(** A response: [response.ok], [response.status], and the body, when it
    parses as JSON. *)
Record Response : Type := mkResponse {
  ok : bool;
  status : Z;
  body : option Json.t
}.

(** What the client keeps in the browser: the stored token and the hash of
    the location. *)
Record Browser : Type := mkBrowser {
  token : option string;
  hash : string
}.

Inductive Payload : Type :=
| NoBody
| JsonBody (j : Json.t)
| FormBody (fields : list (string * string)).

Record Request : Type := mkRequest {
  method : string;
  url : string;
  headers : list (string * string);
  payload : Payload
}.

(** A call of the client: it returns or throws, and leaves the browser
    state. *)
Definition Call (A : Type) : Type := Browser -> Js.completion A * Browser.

(** [getAuthHeaders] *)
Definition getAuthHeaders (b : Browser) : list (string * string) :=
  match token b with
  | Some (String c s) =>
      [("Authorization", "Bearer " ++ String c s);
       ("Content-Type", "application/json")]
  | _ => [("Content-Type", "application/json")]
  end.

(** [detail.map((e) => e.msg)] *)
Fixpoint msgs (detail : list Json.t) : Js.completion (list (option Json.t)) :=
  match detail with
  | [] => Js.Normal []
  | e :: rest =>
      match Json.prop e "msg" with
      | Js.Throw err => Js.Throw err
      | Js.Normal m =>
          match msgs rest with
          | Js.Throw err => Js.Throw err
          | Js.Normal ms => Js.Normal (m :: ms)
          end
      end
  end.

(** The message of a failed response that is not a 401:
    [Array.isArray(errorData.detail)
       ? errorData.detail.map((e) => e.msg).join(', ')
       : errorData.detail || 'API Error'] *)
Definition error_message (errorData : Json.t) : Js.completion string :=
  match Json.prop errorData "detail" with
  | Js.Throw err => Js.Throw err
  | Js.Normal (Some (Json.Arr detail)) =>
      match msgs detail with
      | Js.Throw err => Js.Throw err
      | Js.Normal ms => Js.Normal (String.concat ", " (map Json.joined ms))
      end
  | Js.Normal (Some detail) =>
      Js.Normal (if Json.truthy detail then Json.toString detail
                 else "API Error")
  | Js.Normal None => Js.Normal "API Error"
  end.

Definition SyntaxError : Js.Error :=
  Js.mkError (Js.Str "Unexpected token in JSON").

Definition NetworkError : Js.Error :=
  Js.mkError (Js.Str "Failed to fetch").

(** [handleResponse] *)
Definition handleResponse (response : Response) : Call Json.t :=
  fun b =>
    if negb (ok response) then
      if (status response =? 401)%Z then
        (Js.Throw (Js.mkError (Js.Str "Unauthorized")),
         mkBrowser None EmptyString)
      else
        let errorData :=
          match body response with
          | Some j => j
          | None =>
              Json.Obj [("detail", Json.Str "An unexpected error occurred")]
          end in
        match error_message errorData with
        | Js.Normal message => (Js.Throw (Js.mkError (Js.Str message)), b)
        | Js.Throw err => (Js.Throw err, b)
        end
    else
      match body response with
      | Some j => (Js.Normal j, b)
      | None => (Js.Throw SyntaxError, b)
      end.

Section Client.

(** The base address, and the network: the response to a request, if one
    arrives. *)
Variable BASE_URL : string.
Variable fetch : Request -> option Response.

(** [handleResponse(await fetch(...))] *)
Definition through (request : Request) : Call Json.t :=
  fun b =>
    match fetch request with
    | Some response => handleResponse response b
    | None => (Js.Throw NetworkError, b)
    end.

Definition login (username password : string) : Call Json.t :=
  through
    (mkRequest "POST" (BASE_URL ++ "/token")
       [("Content-Type", "application/x-www-form-urlencoded")]
       (FormBody [("username", username); ("password", password)])).

Definition register (username email password : string) : Call Json.t :=
  through
    (mkRequest "POST" (BASE_URL ++ "/user")
       [("Content-Type", "application/json")]
       (JsonBody (Json.Obj [("username", Json.Str username);
                            ("email", Json.Str email);
                            ("password", Json.Str password)]))).

Definition getTodos : Call Json.t :=
  fun b =>
    through (mkRequest "GET" (BASE_URL ++ "/todo") (getAuthHeaders b) NoBody) b.

Definition createTodo (title description priority due_date : string)
  : Call Json.t :=
  fun b =>
    through
      (mkRequest "POST" (BASE_URL ++ "/todo") (getAuthHeaders b)
         (JsonBody (Json.Obj [("title", Json.Str title);
                              ("description", Json.Str description);
                              ("priority", Json.Str priority);
                              ("due_date", Json.Str due_date)]))) b.

Definition updateTodo (id : string) (todo : Json.t) : Call Json.t :=
  fun b =>
    through
      (mkRequest "PATCH" (BASE_URL ++ "/todo/" ++ id) (getAuthHeaders b)
         (JsonBody todo)) b.

(** [deleteTodo], which reads the response by itself. *)
Definition deleteTodo (id : string) : Call unit :=
  fun b =>
    match fetch (mkRequest "DELETE" (BASE_URL ++ "/todo/" ++ id)
                   (getAuthHeaders b) NoBody) with
    | None => (Js.Throw NetworkError, b)
    | Some response =>
        if negb (ok response) then
          let errorData :=
            match body response with
            | Some j => j
            | None => Json.Obj []
            end in
          match Json.prop errorData "detail" with
          | Js.Throw err => (Js.Throw err, b)
          | Js.Normal (Some detail) =>
              (Js.Throw
                 (Js.mkError
                    (Js.Str (if Json.truthy detail then Json.toString detail
                             else "Failed to delete"))), b)
          | Js.Normal None =>
              (Js.Throw (Js.mkError (Js.Str "Failed to delete")), b)
          end
        else (Js.Normal tt, b)
    end.

End Client.

End Rest.

(** A validation failure as the backend reports it: a list of details, each
    with its location, message and type. *)
Definition validation_errors (messages : list string) : Json.t :=
  Json.Obj
    [("detail",
      Json.Arr
        (map (fun m => Json.Obj [("loc", Json.Arr []);
                                 ("msg", Json.Str m);
                                 ("type", Json.Str "value_error")])
           messages))].

(** The browser after the client has logged the user out. *)
Definition logged_out : Rest.Browser := Rest.mkBrowser None EmptyString.

(* ------------------------------------------------------------------ *)
(** ** The task list view *)

Module TodoList.

(** The calls the view makes, and what the client answers: the listing,
    the task a creation or an update returns, the completion of a
    deletion. *)
Inductive Call : Type :=
| GetTodos
| CreateTodo (title description priority due_date : string)
| UpdateTodo (id title description priority due_date : string)
| DeleteTodo (id : string).

Record Client : Type := mkClient {
  listing : Js.completion (list Todo);
  returned : Call -> Js.completion Todo;
  deleted : Call -> Js.completion unit
}.

Inductive Event : Type :=
| Called (c : Call)
| Logged (e : Js.Error).

(** The state of the view. *)
Record View : Type := mkView {
  todos : list Todo;
  loading : bool;
  searchTerm : string;
  isModalOpen : bool;
  editingTodo : option Todo;
  todoToDelete : option Todo;
  isDeleting : bool;
  formTitle : string;
  formDesc : string;
  formPriority : string;
  formDueDate : string;
  submitting : bool
}.

Definition setTodos (l : list Todo) (v : View) : View :=
  mkView l (loading v) (searchTerm v) (isModalOpen v) (editingTodo v)
    (todoToDelete v) (isDeleting v) (formTitle v) (formDesc v)
    (formPriority v) (formDueDate v) (submitting v).

Definition setLoading (b : bool) (v : View) : View :=
  mkView (todos v) b (searchTerm v) (isModalOpen v) (editingTodo v)
    (todoToDelete v) (isDeleting v) (formTitle v) (formDesc v)
    (formPriority v) (formDueDate v) (submitting v).

Definition setTodoToDelete (t : option Todo) (v : View) : View :=
  mkView (todos v) (loading v) (searchTerm v) (isModalOpen v) (editingTodo v)
    t (isDeleting v) (formTitle v) (formDesc v)
    (formPriority v) (formDueDate v) (submitting v).

Definition setIsDeleting (b : bool) (v : View) : View :=
  mkView (todos v) (loading v) (searchTerm v) (isModalOpen v) (editingTodo v)
    (todoToDelete v) b (formTitle v) (formDesc v)
    (formPriority v) (formDueDate v) (submitting v).

Definition setSubmitting (b : bool) (v : View) : View :=
  mkView (todos v) (loading v) (searchTerm v) (isModalOpen v) (editingTodo v)
    (todoToDelete v) (isDeleting v) (formTitle v) (formDesc v)
    (formPriority v) (formDueDate v) b.

(** [closeModal] *)
Definition closeModal (v : View) : View :=
  mkView (todos v) (loading v) (searchTerm v) false None
    (todoToDelete v) (isDeleting v) (formTitle v) (formDesc v)
    (formPriority v) (formDueDate v) (submitting v).

(** [toInputDate]: the first sixteen characters, "YYYY-MM-DDThh:mm". *)
Definition toInputDate (isoString : string) : string :=
  match isoString with
  | EmptyString => EmptyString
  | _ => String.substring 0 16 isoString
  end.

(** [s || d] on strings *)
Definition or_else (s d : string) : string :=
  match s with
  | EmptyString => d
  | _ => s
  end.

(** [openModal(todo)]; for a new task the form starts at the local time
    [local_iso], cut to minutes. *)
Definition openModal (todo : option Todo) (local_iso : string) (v : View)
  : View :=
  match todo with
  | Some t =>
      mkView (todos v) (loading v) (searchTerm v) true (Some t)
        (todoToDelete v) (isDeleting v) (title t)
        (or_else (description t) EmptyString)
        (or_else (priority t) "medium")
        (toInputDate (due_date t)) (submitting v)
  | None =>
      mkView (todos v) (loading v) (searchTerm v) true None
        (todoToDelete v) (isDeleting v) EmptyString EmptyString "medium"
        (String.substring 0 16 local_iso) (submitting v)
  end.

Section Handlers.

Variable toLowerCase : string -> string.
Variable toISOString : Z -> string.
Variable client : Client.

(** [fetchTodos] *)
Definition fetchTodos (v : View) : list Event * View :=
  match listing client with
  | Js.Normal data => ([Called GetTodos], setLoading false (setTodos data v))
  | Js.Throw e => ([Called GetTodos; Logged e], setLoading false v)
  end.

(** [handleSubmit], at the time [now]. *)
Definition handleSubmit (now : Z) (v : View) : list Event * View :=
  let v := setSubmitting true v in
  let dueDatePayload :=
    or_else (formDueDate v) (toISOString (now + 3600000)) in
  match editingTodo v with
  | Some editing =>
      let c := UpdateTodo (id editing) (formTitle v) (formDesc v)
                 (formPriority v) dueDatePayload in
      match returned client c with
      | Js.Normal updated =>
          ([Called c],
           setSubmitting false
             (closeModal
                (setTodos
                   (map (fun t => if (id t =? id updated)%string
                                  then updated else t) (todos v)) v)))
      | Js.Throw e => ([Called c; Logged e], setSubmitting false v)
      end
  | None =>
      let c := CreateTodo (formTitle v) (formDesc v) (formPriority v)
                 dueDatePayload in
      match returned client c with
      | Js.Normal newTodo =>
          ([Called c],
           setSubmitting false
             (closeModal (setTodos (todos v ++ [newTodo])%list v)))
      | Js.Throw e => ([Called c; Logged e], setSubmitting false v)
      end
  end.

(** [handleConfirmDelete] *)
Definition handleConfirmDelete (v : View) : list Event * View :=
  match todoToDelete v with
  | None => ([], v)
  | Some selected =>
      let v := setIsDeleting true v in
      let c := DeleteTodo (id selected) in
      match deleted client c with
      | Js.Normal _ =>
          ([Called c],
           setIsDeleting false
             (setTodoToDelete None
                (setTodos
                   (filter (fun t => negb (id t =? id selected)%string)
                      (todos v)) v)))
      | Js.Throw e => ([Called c; Logged e], setIsDeleting false v)
      end
  end.

(** [filteredTodos] *)
Definition filteredTodos (v : View) : list Todo :=
  filter (fun t =>
            Js.includes (toLowerCase (title t)) (toLowerCase (searchTerm v))
            || Js.includes (toLowerCase (description t))
                 (toLowerCase (searchTerm v)))
    (todos v).

End Handlers.

(** The requests of a trace, in order. *)
Fixpoint requests (trace : list Event) : list Call :=
  match trace with
  | [] => []
  | Called c :: trace' => c :: requests trace'
  | Logged _ :: trace' => requests trace'
  end.

(** The errors written to the console, in order. *)
Fixpoint logged (trace : list Event) : list Js.Error :=
  match trace with
  | [] => []
  | Called _ :: trace' => logged trace'
  | Logged e :: trace' => e :: logged trace'
  end.

(** Clicking the bin of a task selects it for deletion. *)
Definition askDelete (t : Todo) (v : View) : View :=
  setTodoToDelete (Some t) v.

End TodoList.

(* ------------------------------------------------------------------ *)
(** ** Signing in and out *)

Module AuthForm.

(** The state of the form; [error] is what the banner shows when it is
    truthy. *)
Record Form : Type := mkForm {
  isLogin : bool;
  username : string;
  email : string;
  password : string;
  loading : bool;
  error : Js.value
}.

(** [localStorage.setItem('token', v)]: the value is stored as a string. *)
Definition store_token (v : option Json.t) (b : Rest.Browser) : Rest.Browser :=
  Rest.mkBrowser
    (Some (match v with
           | None => "undefined"
           | Some j => Json.toString j
           end))
    (Rest.hash b).

Section Submit.

Variable BASE_URL : string.
Variable fetch : Rest.Request -> option Rest.Response.

(** [const response = await api.login(username, password);
     localStorage.setItem('token', response.access_token); onSuccess();]
    with what it leaves in the browser and whether [onSuccess] ran. *)
Definition sign_in (f : Form) (b : Rest.Browser)
  : Js.completion unit * Rest.Browser :=
  match Rest.login BASE_URL fetch (username f) (password f) b with
  | (Js.Throw e, b1) => (Js.Throw e, b1)
  | (Js.Normal response, b1) =>
      match Json.prop response "access_token" with
      | Js.Throw e => (Js.Throw e, b1)
      | Js.Normal access_token => (Js.Normal tt, store_token access_token b1)
      end
  end.

(** [handleSubmit]: the form, the browser, and whether [onSuccess] was
    called. *)
Definition handleSubmit (f : Form) (b : Rest.Browser)
  : Form * Rest.Browser * bool :=
  let failed (e : Js.Error) (f : Form) :=
    mkForm (isLogin f) (username f) (email f) (password f) false
      (Js.or (Js.message e) (Js.Str "Authentication failed")) in
  let f := mkForm (isLogin f) (username f) (email f) (password f) true
             (Js.Str EmptyString) in
  if isLogin f then
    match sign_in f b with
    | (Js.Normal _, b1) =>
        (mkForm (isLogin f) (username f) (email f) (password f) false
           (error f), b1, true)
    | (Js.Throw e, b1) => (failed e f, b1, false)
    end
  else
    match Rest.register BASE_URL fetch (username f) (email f) (password f) b with
    | (Js.Throw e, b1) => (failed e f, b1, false)
    | (Js.Normal _, b1) =>
        match sign_in f b1 with
        | (Js.Normal _, b2) =>
            (mkForm (isLogin f) (username f) (email f) (password f) false
               (error f), b2, true)
        | (Js.Throw _, b2) =>
            (mkForm true (username f) (email f) (password f) false
               (Js.Str "Registration successful! Please log in."), b2, false)
        end
    end.

End Submit.

End AuthForm.

Module App.

(** The check made when the application mounts: authenticated when a
    token is stored. *)
Definition mount (b : Rest.Browser) : bool :=
  match Rest.token b with
  | Some (String _ _) => true
  | _ => false
  end.

(** [handleLogout]: the browser and the new value of [isAuthenticated]. *)
Definition handleLogout (b : Rest.Browser) : Rest.Browser * bool :=
  (Rest.mkBrowser None (Rest.hash b), false).

End App.

(* ================================================================== *)
(** * Properties *)

(* ------------------------------------------------------------------ *)
(** ** Strings *)

Lemma prefix_append (q b : string) : String.prefix q (q ++ b) = true.
Proof.
  induction q as [|c q IH]; simpl.
  - now destruct b.
  - destruct (ascii_dec c c) as [_|N]; [exact IH | now elim N].
Qed.

Lemma includes_unfold (s q : string) :
  Js.includes s q =
  if String.prefix q s then true
  else match s with
       | EmptyString => false
       | String _ s' => Js.includes s' q
       end.
Proof. destruct s; reflexivity. Qed.

Lemma includes_prefix (s q : string) :
  String.prefix q s = true -> Js.includes s q = true.
Proof.
  intros P. rewrite includes_unfold, P. reflexivity.
Qed.

Lemma string_app_assoc (a b c : string) : ((a ++ b) ++ c = a ++ (b ++ c))%string.
Proof.
  induction a as [|x a IH]; simpl; [reflexivity | now rewrite IH].
Qed.

Lemma string_app_nil_r (a : string) : (a ++ EmptyString = a)%string.
Proof.
  induction a as [|x a IH]; simpl; [reflexivity | now rewrite IH].
Qed.

(** A string includes each of its infixes. *)
Lemma includes_infix (a q b : string) : Js.includes (a ++ q ++ b) q = true.
Proof.
  induction a as [|c a IH].
  - change (EmptyString ++ q ++ b) with (q ++ b).
    apply includes_prefix, prefix_append.
  - change (String c a ++ q ++ b) with (String c (a ++ q ++ b)).
    rewrite includes_unfold, IH. now destruct (String.prefix q _).
Qed.

Lemma prefix_split (q s : string) :
  String.prefix q s = true -> exists b, s = q ++ b.
Proof.
  revert s. induction q as [|c q IH]; intros s.
  - intros _. now exists s.
  - destruct s as [|c' s]; simpl; [discriminate|].
    destruct (ascii_dec c c') as [<-|_]; [|discriminate].
    intros P. destruct (IH s P) as [b ->]. now exists b.
Qed.

(** [includes] is the infix relation. *)
Lemma includes_spec (s q : string) :
  Js.includes s q = true <-> exists a b, s = a ++ q ++ b.
Proof.
  split.
  - induction s as [|c s IH]; rewrite includes_unfold;
      destruct (String.prefix q _) eqn:P.
    + intros _. destruct (prefix_split _ _ P) as [b E].
      now exists EmptyString, b.
    + discriminate.
    + intros _. destruct (prefix_split _ _ P) as [b E].
      now exists EmptyString, b.
    + intros H. destruct (IH H) as (a & b & ->). now exists (String c a), b.
  - intros (a & b & ->). apply includes_infix.
Qed.

(** A joined list shows each of its elements. *)
Lemma concat_shows (sep x : string) (l : list string) :
  In x l -> exists a b, String.concat sep l = a ++ x ++ b.
Proof.
  induction l as [|y l IH]; intros HIn; [contradiction|].
  destruct HIn as [->|HIn].
  - destruct l as [|z l].
    + exists EmptyString, EmptyString. simpl.
      now rewrite string_app_nil_r.
    + exists EmptyString, (sep ++ String.concat sep (z :: l)). reflexivity.
  - destruct (IH HIn) as (a & b & E).
    destruct l as [|z l]; [contradiction|].
    exists (y ++ sep ++ a), b.
    change (String.concat sep (y :: z :: l))
      with (y ++ sep ++ String.concat sep (z :: l)).
    rewrite E. now rewrite !string_app_assoc.
Qed.

Lemma listing_shows (pre post sep : string) (l : list string) (x : string) :
  In x l -> Js.includes (pre ++ String.concat sep l ++ post) x = true.
Proof.
  intros HIn. destruct (concat_shows sep x l HIn) as (a & b & ->).
  replace (pre ++ (a ++ x ++ b) ++ post) with ((pre ++ a) ++ x ++ (b ++ post)).
  - apply includes_infix.
  - now rewrite !string_app_assoc.
Qed.

(* ------------------------------------------------------------------ *)
(** ** The monad of the bridge *)

Lemma bind_ret_l {Ev A B} (a : A) (k : A -> Js.M Ev B) :
  Js.bind (Js.ret a) k = k a.
Proof. unfold Js.bind, Js.ret. now destruct (k a). Qed.

Lemma bind_ret_r {Ev A} (m : Js.M Ev A) : Js.bind m Js.ret = m.
Proof. destruct m as [t [a|e]]; simpl; [now rewrite app_nil_r | reflexivity]. Qed.

Lemma bind_assoc {Ev A B C} (m : Js.M Ev A) (k : A -> Js.M Ev B)
    (h : B -> Js.M Ev C) :
  Js.bind (Js.bind m k) h = Js.bind m (fun a => Js.bind (k a) h).
Proof.
  destruct m as [t [a|e]]; simpl; [|reflexivity].
  destruct (k a) as [t' [b|e]]; simpl; [|reflexivity].
  destruct (h b) as [t'' r]. now rewrite app_assoc.
Qed.

Lemma try_catch_returns {Ev A} (m : Js.M Ev A) (h : Js.Error -> Js.M Ev A) :
  (forall e, exists a, Js.outcome (h e) = Js.Normal a) ->
  exists a, Js.outcome (Js.try_catch m h) = Js.Normal a.
Proof.
  intros Hh. destruct m as [t [a|e]]; simpl.
  - now exists a.
  - destruct (Hh e) as [a Ha]. destruct (h e) as [t' r]. simpl in *. now exists a.
Qed.

Lemma fail_fast_silent {A} w (m : Js.M Effect A) :
  (forall c, ~ In (Api c) (Js.trace m)) -> fail_fast w m.
Proof. intros Hn c e HIn. now elim (Hn c). Qed.

Lemma fail_fast_ret {A} w (a : A) : fail_fast w (Js.ret a).
Proof. apply fail_fast_silent. intros c []. Qed.

Lemma fail_fast_throw {A} w e : fail_fast w (@Js.throw Effect A e).
Proof. apply fail_fast_silent. intros c []. Qed.

Lemma fail_fast_prop w o k : fail_fast w (prop o k).
Proof. destruct o; [apply fail_fast_ret | apply fail_fast_throw]. Qed.

Lemma fail_fast_onUpdate w : fail_fast w onUpdate.
Proof. apply fail_fast_silent. intros c [E|[]]. discriminate. Qed.

Lemma fail_fast_api w c : fail_fast w (api w c).
Proof.
  intros c' e [E|[]] Hc. injection E as <-. unfold api. simpl. now rewrite Hc.
Qed.

Lemma fail_fast_bind {A B} w (m : Js.M Effect A) (k : A -> Js.M Effect B) :
  fail_fast w m -> (forall a, fail_fast w (k a)) -> fail_fast w (Js.bind m k).
Proof.
  intros Hm Hk c e HIn Hc. destruct m as [t [a|e']]; simpl in *.
  - specialize (Hk a). destruct (k a) as [t' r] eqn:Ek. simpl in *.
    apply in_app_or in HIn as [HIn|HIn].
    + specialize (Hm c e HIn Hc). discriminate.
    + exact (Hk c e HIn Hc).
  - specialize (Hm c e HIn Hc). simpl in Hm. injection Hm as ->. reflexivity.
Qed.

Create HintDb bridge.

#[local] Hint Resolve fail_fast_ret fail_fast_throw fail_fast_prop
  fail_fast_onUpdate fail_fast_api : bridge.

Ltac fail_fast_steps :=
  repeat first
    [ apply fail_fast_bind; [| intros ? ]
    | progress auto with bridge
    | match goal with
      | |- fail_fast _ (let _ := _ in _) => lazy zeta
      | |- fail_fast _ (if ?b then _ else _) => destruct b
      | |- fail_fast _ (match ?x with _ => _ end) => destruct x
      end ].

Lemma fail_fast_lowered lower w v : fail_fast w (lowered lower v).
Proof. destruct v; simpl; auto with bridge. Qed.

Lemma fail_fast_first_match w l : fail_fast w (first_match l).
Proof. unfold first_match. destruct (nth_error l 0); auto with bridge. Qed.

#[local] Hint Resolve fail_fast_lowered fail_fast_first_match : bridge.

(** What a [try]/[catch] around a fail-fast body does with a rejected call:
    the handler sees the error of that call. *)
Lemma try_catch_rejected {A} w (m : Js.M Effect A) (h : Js.Error -> Js.M Effect A) :
  fail_fast w m ->
  (forall e c, ~ In (Api c) (Js.trace (h e))) ->
  forall c e, In (Api c) (Js.trace (Js.try_catch m h)) -> crud w c = Some e ->
    Js.outcome (Js.try_catch m h) = Js.outcome (h e)
    /\ incl (Js.trace (h e)) (Js.trace (Js.try_catch m h)).
Proof.
  intros Hm Hh c e HIn Hc. destruct m as [t [a|e']]; simpl in *.
  - specialize (Hm c e HIn Hc). discriminate.
  - destruct (h e') as [t' r] eqn:Eh. simpl in HIn.
    apply in_app_or in HIn as [HIn|HIn].
    + specialize (Hm c e HIn Hc). simpl in Hm. injection Hm as ->.
      rewrite Eh. simpl. split; [reflexivity | apply incl_appr, incl_refl].
    + elim (Hh e' c). now rewrite Eh.
Qed.

Lemma handleToolCall_body_fail_fast lower iso w fc :
  exists body h,
    handleToolCall lower iso w fc = Js.try_catch body h
    /\ fail_fast w body
    /\ (forall e, h e = Js.ret (Status "error"
                                 (Js.or (Js.message e) (Js.Str "Action failed")))).
Proof.
  eexists _, _. split; [reflexivity|]. split; [|reflexivity].
  fail_fast_steps.
Qed.

Lemma handleAction_body_fail_fast w action data :
  exists body,
    handleAction w action data
    = Js.try_catch body (fun e => Js.emit (ConsoleError e))
    /\ fail_fast w body.
Proof.
  eexists. split; [reflexivity|]. fail_fast_steps.
Qed.

(* ------------------------------------------------------------------ *)
(** ** The tool-call bridge: failures of the CRUD layer *)

(** C5 (as the code has it). Neither handler lets an exception out, for any
    action name and any arguments. When a CRUD call made by
    [handleToolCall] is rejected, the result has status "error" and carries
    [e.message || 'Action failed']: the message of the underlying error
    when it has a non-empty one, the fixed text otherwise. When a CRUD call
    made by [handleAction] is rejected, the error goes to the console and
    nothing is returned. *)
Theorem bridge_contains_failures :
  forall (toLowerCase : string -> string) (toISOString : Z -> string)
         (w : World),
    (forall fc,
        let r := handleToolCall toLowerCase toISOString w fc in
        (exists result, Js.outcome r = Js.Normal result)
        /\ (forall c e,
               In (Api c) (Js.trace r) -> crud w c = Some e ->
               Js.outcome r
               = Js.Normal (Status "error"
                              (Js.or (Js.message e) (Js.Str "Action failed")))
               /\ (Js.truthy (Js.message e) = true ->
                   Js.outcome r = Js.Normal (Status "error" (Js.message e)))))
    /\ (forall action data,
           let r := handleAction w action data in
           Js.outcome r = Js.Normal tt
           /\ (forall c e,
                  In (Api c) (Js.trace r) -> crud w c = Some e ->
                  In (ConsoleError e) (Js.trace r))).
Proof.
  intros lower iso w. split.
  - intros fc r.
    destruct (handleToolCall_body_fail_fast lower iso w fc)
      as (body & h & E & FF & Hh).
    subst r. rewrite E. split.
    + apply try_catch_returns. intros e. rewrite Hh. now eexists.
    + intros c e HIn Hc.
      destruct (try_catch_rejected w body h FF) with (c := c) (e := e)
        as [Hout _]; trivial.
      { intros e' c'. rewrite Hh. intros []. }
      rewrite Hout, Hh. split; [reflexivity|].
      intros Ht. simpl. unfold Js.or. now rewrite Ht.
  - intros action data r.
    destruct (handleAction_body_fail_fast w action data) as (body & E & FF).
    subst r. rewrite E. split.
    + destruct body as [t [[]|e]]; reflexivity.
    + intros c e HIn Hc.
      destruct (try_catch_rejected w body
                  (fun e => Js.emit (ConsoleError e)) FF) with (c := c) (e := e)
        as [_ Hincl]; trivial.
      { intros e' c' [D|[]]. discriminate. }
      apply Hincl. now left.
Qed.

Lemma bridge_contains_failures_witness :
  Js.outcome (handleToolCall Js.lower_string stamp
                (rejecting (Js.mkError (Js.Str "Not Found")))
                (search "delete_todo" "milk"))
  = Js.Normal (Status "error" (Js.Str "Not Found"))
  /\ In (ConsoleError (Js.mkError (Js.Str "Not Found")))
        (Js.trace (handleAction (rejecting (Js.mkError (Js.Str "Not Found")))
                     "delete_todo" (Some [("id", Js.Str "1")]))).
Proof.
  pose proof (bridge_contains_failures Js.lower_string stamp
                (rejecting (Js.mkError (Js.Str "Not Found")))) as [HT HA].
  split.
  - destruct (HT (search "delete_todo" "milk")) as [_ H].
    destruct (H (deleteTodo (Js.Str "1")) (Js.mkError (Js.Str "Not Found")))
      as [_ H'].
    + vm_compute. now left.
    + reflexivity.
    + apply H'. reflexivity.
  - destruct (HA "delete_todo" (Some [("id", Js.Str "1")])) as [_ H].
    apply (H (deleteTodo (Js.Str "1"))).
    + vm_compute. now left.
    + reflexivity.
Defined.

(** C5, as stated, fails where the rejected call's error has an empty
    message (the CRUD layer builds one from an empty list of details):
    the result of [handleToolCall] carries the fixed text instead; and
    [handleAction] returns no result at all. *)
Lemma failure_message_not_carried :
  let e := Js.mkError (Js.Str EmptyString) in
  crud (rejecting e) (deleteTodo (Js.Str "1")) = Some e
  /\ handleToolCall Js.lower_string stamp (rejecting e)
       (search "delete_todo" "milk")
     = ([Api (deleteTodo (Js.Str "1"))],
        Js.Normal (Status "error" (Js.Str "Action failed")))
  /\ Js.Str "Action failed" <> Js.message e
  /\ handleAction (rejecting e) "delete_todo" (Some [("id", Js.Str "1")])
     = ([Api (deleteTodo (Js.Str "1")); ConsoleError e], Js.Normal tt).
Proof.
  repeat split. discriminate.
Qed.

(* ------------------------------------------------------------------ *)
(** ** The tool-call bridge: creation *)

Lemma or_falsy (a b : Js.value) : Js.truthy a = false -> Js.or a b = b.
Proof. unfold Js.or. now intros ->. Qed.

Lemma or_truthy (a b : Js.value) : Js.truthy a = true -> Js.or a b = a.
Proof. unfold Js.or. now intros ->. Qed.

(** C4 (as the code has it). [handleToolCall] creates the task with
    priority "medium" when the priority is absent and with the ISO
    rendering of the current time plus 24 hours when the due date is
    absent; the tool declares the title as required; and when the CRUD
    layer accepts the call the result has status "success" and a message
    that includes the title. [handleAction] also defaults the priority to
    "medium", but passes [null] for an absent due date and returns no
    message. *)
Theorem create_defaults :
  forall (toLowerCase : string -> string) (toISOString : Z -> string)
         (w : World) (o : Js.object),
    (exists p d,
        let call :=
          createTodo (Js.get o "title")
            (Js.or (Js.get o "description") (Js.Str EmptyString)) p d in
        (Js.get o "priority" = Js.Undefined -> p = Js.Str "medium")
        /\ (Js.get o "due_date" = Js.Undefined ->
            d = Js.Str (toISOString (now w + 24 * 60 * 60 * 1000)%Z))
        /\ (Js.truthy (Js.get o "priority") = true -> p = Js.get o "priority")
        /\ (Js.truthy (Js.get o "due_date") = true -> d = Js.get o "due_date")
        /\ handleToolCall toLowerCase toISOString w
             (mkCall "create_todo" (Some o))
           = match crud w call with
             | None =>
                 ([Api call; OnUpdate],
                  Js.Normal
                    (Status "success"
                       (Js.Str ("Created task "
                                ++ quoted (Js.toString (Js.get o "title"))))))
             | Some e =>
                 ([Api call],
                  Js.Normal
                    (Status "error"
                       (Js.or (Js.message e) (Js.Str "Action failed"))))
             end)
    /\ Js.includes ("Created task " ++ quoted (Js.toString (Js.get o "title")))
         (Js.toString (Js.get o "title")) = true
    /\ required toolDefinitions "create_todo" = ["title"]
    /\ (exists p d,
           let call :=
             createTodo (Js.get o "title")
               (Js.or (Js.get o "description") (Js.Str EmptyString)) p d in
           (Js.get o "priority" = Js.Undefined -> p = Js.Str "medium")
           /\ (Js.get o "due_date" = Js.Undefined -> d = Js.Null)
           /\ handleAction w "create_todo" (Some o)
              = match crud w call with
                | None => ([Api call; OnUpdate], Js.Normal tt)
                | Some e => ([Api call; ConsoleError e], Js.Normal tt)
                end).
Proof.
  intros lower iso w o. split; [|split; [|split]].
  - exists (Js.or (Js.get o "priority") (Js.Str "medium")),
           (Js.or (Js.get o "due_date") (Js.Str (iso (now w + 86400000)%Z))).
    split; [now intros -> |]. split; [now intros -> |].
    split; [apply or_truthy |]. split; [apply or_truthy |].
    unfold handleToolCall, api. simpl.
    destruct (crud w _); reflexivity.
  - unfold quoted. rewrite <- string_app_assoc.
    apply (includes_infix ("Created task " ++ dq)).
  - reflexivity.
  - exists (Js.or (Js.get o "priority") (Js.Str "medium")),
           (Js.or (Js.get o "due_date") Js.Null).
    split; [now intros -> |]. split; [now intros -> |].
    unfold handleAction, api. simpl.
    destruct (crud w _); reflexivity.
Qed.

Lemma create_defaults_witness :
  handleToolCall Js.lower_string stamp example_world
    (mkCall "create_todo" (Some titled_milk))
  = ([Api (createTodo (Js.Str "Buy Milk") (Js.Str EmptyString)
             (Js.Str "medium") (Js.Str "1700086400000"));
      OnUpdate],
     Js.Normal (Status "success"
                  (Js.Str ("Created task " ++ quoted "Buy Milk")))).
Proof.
  destruct (create_defaults Js.lower_string stamp example_world titled_milk)
    as [(p & d & Hp & Hd & _ & _ & E) _].
  rewrite E, (Hp eq_refl), (Hd eq_refl). reflexivity.
Defined.

(** C4, as stated, fails on the create branch of [handleAction]: with no
    due date in the request, the CRUD layer is called with [null], not with
    the current time plus 24 hours, and there is no result message. *)
Lemma create_action_passes_null :
  Js.get titled_milk "due_date" = Js.Undefined
  /\ handleAction example_world "create_todo" (Some titled_milk)
     = ([Api (createTodo (Js.Str "Buy Milk") (Js.Str EmptyString)
                (Js.Str "medium") Js.Null);
         OnUpdate],
        Js.Normal tt)
  /\ Js.Null <> Js.Str (stamp (now example_world + 24 * 60 * 60 * 1000)%Z).
Proof.
  repeat split. discriminate.
Qed.

(* ------------------------------------------------------------------ *)
(** ** The tool-call bridge: resolution of a task by its title *)

Lemma delete_resolution lower iso w o q :
  Js.get o "search_title" = Js.Str q ->
  handleToolCall lower iso w (mkCall "delete_todo" (Some o))
  = match matching lower w (lower q) with
    | [] => ([], Js.Normal no_match)
    | [t] => after_call w (deleteTodo (Js.Str (id t)))
               ("Deleted task " ++ quoted (title t))
    | ms => ([], Js.Normal (several (map title ms) ". Please be more specific."))
    end.
Proof.
  intros Hq. unfold handleToolCall, after_call, api. simpl. rewrite Hq. simpl.
  destruct (matching lower w (lower q)) as [|t [|t' ms]]; simpl; trivial.
  destruct (crud w _); reflexivity.
Qed.

Lemma update_resolution lower iso w o q :
  Js.get o "search_title" = Js.Str q ->
  handleToolCall lower iso w (mkCall "update_todo" (Some o))
  = match matching lower w (lower q) with
    | [] => ([], Js.Normal no_match)
    | [t] => after_call w (update_of o t) ("Updated task " ++ quoted (title t))
    | ms => ([], Js.Normal (several (map title ms) "."))
    end.
Proof.
  intros Hq. unfold handleToolCall, after_call, update_of, api. simpl.
  rewrite Hq. simpl.
  destruct (matching lower w (lower q)) as [|t [|t' ms]]; simpl; trivial.
  destruct (crud w _); reflexivity.
Qed.

(** C1. With a search string [q] in the arguments, delete and update look
    for the tasks of the mirror whose lower-cased title has the lower-cased
    [q] as an infix. No match: an error result with the no-task-found
    message and no outside call. Several matches: an error result whose
    message lists the titles of all of them, and no outside call. One
    match: the CRUD delete or update is called on the id of that task. On
    the tasks "Buy Milk" and "Buy Bread": "milk" resolves to the first,
    "buy" gives the error that lists both, "eggs" gives the no-match
    error. *)
Theorem resolve_by_title :
  forall (toLowerCase : string -> string) (toISOString : Z -> string)
         (w : World) (o : Js.object) (q : string),
    Js.get o "search_title" = Js.Str q ->
    let matches :=
      filter (fun t => Js.includes (toLowerCase (title t)) (toLowerCase q))
        (todosRef w) in
    let delete :=
      handleToolCall toLowerCase toISOString w (mkCall "delete_todo" (Some o)) in
    let update :=
      handleToolCall toLowerCase toISOString w (mkCall "update_todo" (Some o)) in
    (forall t, In t matches <->
               In t (todosRef w)
               /\ exists a b,
                    toLowerCase (title t) = a ++ toLowerCase q ++ b)
    /\ (matches = [] ->
        delete = ([], Js.Normal no_match) /\ update = ([], Js.Normal no_match))
    /\ ((1 < List.length matches)%nat ->
          delete = ([], Js.Normal (several (map title matches)
                                     ". Please be more specific."))
          /\ update = ([], Js.Normal (several (map title matches) "."))
          /\ (forall t ending, In t matches ->
                exists m, several (map title matches) ending
                          = Status "error" (Js.Str m)
                          /\ Js.includes m (title t) = true))
    /\ (forall t, matches = [t] ->
          delete = after_call w (deleteTodo (Js.Str (id t)))
                     ("Deleted task " ++ quoted (title t))
          /\ update = after_call w (update_of o t)
                        ("Updated task " ++ quoted (title t))
          /\ (exists rest, Js.trace delete
                           = Api (deleteTodo (Js.Str (id t))) :: rest)
          /\ (exists p rest, Js.trace update
                             = Api (updateTodo (Js.Str (id t)) p) :: rest))
    /\ (let ask tool q :=
          handleToolCall Js.lower_string toISOString example_world
            (search tool q) in
        map title (todosRef example_world) = ["Buy Milk"; "Buy Bread"]
        /\ ask "delete_todo" "milk"
           = ([Api (deleteTodo (Js.Str (id buy_milk))); OnUpdate],
              Js.Normal (Status "success"
                           (Js.Str ("Deleted task " ++ quoted "Buy Milk"))))
        /\ ask "update_todo" "milk"
           = ([Api (update_of [] buy_milk); OnUpdate],
              Js.Normal (Status "success"
                           (Js.Str ("Updated task " ++ quoted "Buy Milk"))))
        /\ ask "delete_todo" "buy"
           = ([], Js.Normal
                    (Status "error"
                       (Js.Str "Multiple tasks found: Buy Milk, Buy Bread. Please be more specific.")))
        /\ ask "update_todo" "buy"
           = ([], Js.Normal
                    (Status "error"
                       (Js.Str "Multiple tasks found: Buy Milk, Buy Bread.")))
        /\ ask "delete_todo" "eggs" = ([], Js.Normal no_match)
        /\ ask "update_todo" "eggs" = ([], Js.Normal no_match)
        /\ Js.includes
             (Js.lower_string "No task found matching that name.")
             "no task found" = true).
Proof.
  intros lower iso w o q Hq matches delete update.
  assert (Ed := delete_resolution lower iso w o q Hq).
  assert (Eu := update_resolution lower iso w o q Hq).
  fold delete in Ed. fold update in Eu.
  change (matching lower w (lower q)) with matches in Ed, Eu.
  split; [|split; [|split; [|split]]].
  - intros t. unfold matches. rewrite filter_In, includes_spec. reflexivity.
  - intros E. rewrite E in Ed, Eu. now split.
  - intros Hlen.
    destruct matches as [|t [|t' ms]] eqn:Em; simpl in Hlen; try lia.
    repeat split; trivial.
    intros t0 ending HIn. eexists. split; [reflexivity|].
    apply listing_shows. now apply in_map.
  - intros t E. rewrite E in Ed, Eu. repeat split; trivial.
    + rewrite Ed. unfold after_call. destruct (crud w _); now eexists.
    + rewrite Eu. unfold after_call, update_of.
      destruct (crud w _); now eexists _, _.
  - repeat split.
Qed.

Lemma resolve_by_title_witness :
  handleToolCall Js.lower_string stamp example_world (search "delete_todo" "MILK")
  = after_call example_world (deleteTodo (Js.Str "1"))
      ("Deleted task " ++ quoted "Buy Milk")
  /\ handleToolCall Js.lower_string stamp example_world (search "update_todo" "Bu")
     = ([], Js.Normal (several ["Buy Milk"; "Buy Bread"] ".")).
Proof.
  split.
  - destruct (resolve_by_title Js.lower_string stamp example_world
                [("search_title", Js.Str "MILK")] "MILK" eq_refl)
      as (_ & _ & _ & H & _).
    destruct (H buy_milk eq_refl) as [Hd _]. exact Hd.
  - destruct (resolve_by_title Js.lower_string stamp example_world
                [("search_title", Js.Str "Bu")] "Bu" eq_refl)
      as (_ & _ & H & _).
    destruct H as (_ & Hu & _); [vm_compute; lia | exact Hu].
Defined.

(* ------------------------------------------------------------------ *)
(** ** The tool-call bridge: replacement fields of an update *)

Lemma or_empty (a : Js.value) (prior : string) :
  Js.or a (Js.Str prior) = Js.Str EmptyString -> prior = EmptyString.
Proof.
  destruct a as [| |[|]|[|] sh|[|c s]|sh]; unfold Js.or; simpl; intros E;
    solve [now injection E | discriminate E].
Qed.

Lemma after_call_trace w c done :
  exists rest, Js.trace (after_call w c done) = Api c :: rest.
Proof. unfold after_call. destruct (crud w c); now eexists. Qed.

(** C10. When an update resolves to the single task [t], a replacement
    field that is supplied but falsy (the empty string) is treated as an
    absent one: the update request carries the prior value of the task for
    that field. Hence a field of the request is the empty string only if
    the task already had the empty string there. *)
Theorem falsy_replacement_keeps_field :
  forall (toLowerCase : string -> string) (toISOString : Z -> string)
         (w : World) (o : Js.object) (q : string) (t : Todo),
    Js.get o "search_title" = Js.Str q ->
    filter (fun t => Js.includes (toLowerCase (title t)) (toLowerCase q))
      (todosRef w) = [t] ->
    exists p rest,
      Js.trace (handleToolCall toLowerCase toISOString w
                  (mkCall "update_todo" (Some o)))
      = Api (updateTodo (Js.Str (id t)) p) :: rest
      /\ (forall field prior get_field,
            In (field, prior, get_field)
               [("new_title", title t, patch_title);
                ("new_description", description t, patch_description);
                ("new_priority", priority t, patch_priority);
                ("new_due_date", due_date t, patch_due_date)] ->
            (Js.get o field = Js.Str EmptyString -> get_field p = Js.Str prior)
            /\ (Js.get o field = Js.Undefined -> get_field p = Js.Str prior)
            /\ (Js.truthy (Js.get o field) = false -> get_field p = Js.Str prior)
            /\ (Js.truthy (Js.get o field) = true -> get_field p = Js.get o field)
            /\ (get_field p = Js.Str EmptyString -> prior = EmptyString)).
Proof.
  intros lower iso w o q t Hq Hm.
  pose proof (update_resolution lower iso w o q Hq) as E.
  unfold matching in E. rewrite Hm in E. rewrite E.
  destruct (after_call_trace w (update_of o t)
              ("Updated task " ++ quoted (title t))) as [rest ->].
  eexists _, rest. split.
  - reflexivity.
  - intros field prior get_field HIn. simpl in HIn.
    destruct HIn as [H|[H|[H|[H|[]]]]]; injection H as <- <- <-; simpl;
      (split; [now intros -> |]; split; [now intros -> |];
       split; [apply or_falsy |]; split; [apply or_truthy | apply or_empty]).
Qed.

Lemma falsy_replacement_keeps_field_witness :
  exists rest,
    Js.trace (handleToolCall Js.lower_string stamp example_world
                (mkCall "update_todo" (Some blanking)))
    = Api (updateTodo (Js.Str "1")
             (mkPatch (Js.Str "Buy Milk") (Js.Str "2% fat") (Js.Str "high")
                (Js.Str "2026-01-01T00:00:00.000Z"))) :: rest.
Proof.
  destruct (falsy_replacement_keeps_field Js.lower_string stamp example_world
              blanking "milk" buy_milk eq_refl eq_refl)
    as (p & rest & E & H).
  exists rest. rewrite E. do 2 f_equal. f_equal.
  destruct p as [pt pd pp pdue].
  destruct (H "new_title" _ _ (or_introl eq_refl)) as (Ht & _).
  destruct (H "new_description" _ _ (or_intror (or_introl eq_refl))) as (Hd & _).
  destruct (H "new_priority" _ _ (or_intror (or_intror (or_introl eq_refl))))
    as (_ & _ & _ & Hp & _).
  destruct (H "new_due_date" _ _
              (or_intror (or_intror (or_intror (or_introl eq_refl)))))
    as (_ & Hdue & _).
  simpl in *.
  now rewrite (Ht eq_refl), (Hd eq_refl), (Hp eq_refl), (Hdue eq_refl).
Defined.

(* ------------------------------------------------------------------ *)
(** ** The audio codec: bytes and Base64 *)

Lemma buffer_bytes (l : list Z) : Forall is_byte (buffer l).
Proof.
  induction l as [|v l IH]; simpl; repeat constructor; trivial;
    apply Z.mod_pos_bound; lia.
Qed.

Lemma buffer_length (l : list Z) :
  List.length (buffer l) = (2 * List.length l)%nat.
Proof. induction l as [|v l IH]; simpl; [reflexivity | rewrite IH; lia]. Qed.

Lemma wrap16_int16 (v : Z) : is_int16 v -> wrap16 v = v.
Proof.
  unfold is_int16, wrap16. intros Hv.
  rewrite Z.mod_small by lia. lia.
Qed.

Lemma wrap16_range (v : Z) : is_int16 (wrap16 v).
Proof.
  unfold is_int16, wrap16.
  pose proof (Z.mod_pos_bound (v + 32768) 65536). lia.
Qed.

(** The samples read back from the bytes of an [Int16Array] are its
    elements. *)
Lemma int16s_buffer (l : list Z) : Forall is_int16 l -> int16s (buffer l) = l.
Proof.
  induction 1 as [|v l Hv _ IH]; cbn [buffer int16s]; [reflexivity|].
  rewrite IH. f_equal.
  replace (v mod 256 + 256 * ((v / 256) mod 256))%Z with (v mod 65536)%Z.
  - unfold is_int16, wrap16 in *. Z.to_euclidean_division_equations. lia.
  - Z.to_euclidean_division_equations. lia.
Qed.

Lemma fromCharCode_bytes (l : list Z) :
  Forall is_byte l -> map fromCharCode l = l.
Proof.
  induction 1 as [|b l Hb _ IH]; simpl; [reflexivity|].
  rewrite IH. unfold fromCharCode, is_byte in *.
  now rewrite Z.mod_small by lia.
Qed.

Lemma bytes_fit (l : list Z) :
  Forall is_byte l -> forallb (fun u => (u <=? 255)%Z) l = true.
Proof.
  induction 1 as [|b l Hb _ IH]; simpl; [reflexivity|].
  rewrite IH. unfold is_byte in Hb.
  now replace (b <=? 255)%Z with true by (symmetry; apply Z.leb_le; lia).
Qed.

(** [btoa] does not throw on what [arrayBufferToBase64] gives it. *)
Lemma arrayBufferToBase64_bytes {Ev} (l : list Z) :
  Forall is_byte l -> @arrayBufferToBase64 Ev l = Js.ret (base64 l).
Proof.
  intros Hl. unfold arrayBufferToBase64, btoa.
  rewrite (fromCharCode_bytes l Hl), (bytes_fit l Hl). reflexivity.
Qed.

Lemma encode_returns {Ev} (x : list float) :
  @encode Ev x = Js.ret (base64 (buffer (map pcm16 x))).
Proof. apply arrayBufferToBase64_bytes, buffer_bytes. Qed.

Lemma sextets_all (n : Z) : (0 <= n < 64)%Z -> In n sextets.
Proof.
  intros Hn. unfold sextets. rewrite <- (Z2Nat.id n) by lia.
  apply in_map, in_seq. lia.
Qed.

Lemma unsextet_sextet (n : Z) :
  (0 <= n < 64)%Z ->
  unsextet (sextet n) = Some n /\ Ascii.eqb (sextet n) pad = false.
Proof.
  intros Hn.
  assert (Hall : forallb (fun n =>
                   match unsextet (sextet n) with
                   | Some m => (m =? n)%Z
                   | None => false
                   end && negb (Ascii.eqb (sextet n) pad)) sextets = true)
    by (vm_compute; reflexivity).
  rewrite forallb_forall in Hall. specialize (Hall n (sextets_all n Hn)).
  apply andb_true_iff in Hall as [H1 H2].
  destruct (unsextet (sextet n)) as [m|]; [|discriminate].
  apply Z.eqb_eq in H1 as ->. split; [reflexivity|].
  now destruct (Ascii.eqb (sextet n) pad).
Qed.

(** Induction on lists three elements at a time. *)
Lemma list_ind3 {A} (P : list A -> Prop) :
  P [] -> (forall a, P [a]) -> (forall a b, P [a; b]) ->
  (forall a b c l, P l -> P (a :: b :: c :: l)) ->
  forall l, P l.
Proof.
  intros H0 H1 H2 H3 l.
  enough (P l /\ (forall a, P (a :: l)) /\ (forall a b, P (a :: b :: l)))
    by tauto.
  induction l as [|x l (IH0 & IH1 & IH2)]; repeat split; auto.
Qed.

Lemma unbase64_group (c1 c2 c3 c4 : ascii) (rest : string) :
  Ascii.eqb c4 pad = false ->
  unbase64 (String c1 (String c2 (String c3 (String c4 rest))))
  = match unsextet c1, unsextet c2, unsextet c3, unsextet c4, unbase64 rest with
    | Some v1, Some v2, Some v3, Some v4, Some bytes =>
        Some ((v1 * 4 + v2 / 16)%Z :: (v2 mod 16 * 16 + v3 / 4)%Z
                :: (v3 mod 4 * 64 + v4)%Z :: bytes)
    | _, _, _, _, _ => None
    end.
Proof.
  intros Hc4. cbn [unbase64]. rewrite Hc4.
  destruct (unsextet c1), (unsextet c2), (unsextet c3), (unsextet c4);
    destruct rest; reflexivity.
Qed.

Ltac sextet_range := unfold is_byte in *; Z.to_euclidean_division_equations; lia.

(** Decoding the Base64 of a byte sequence gives the bytes back. *)
Lemma unbase64_base64 (l : list Z) :
  Forall is_byte l -> unbase64 (base64 l) = Some l.
Proof.
  induction l as [|a|a b|a b c l IH] using list_ind3; intros Hl.
  - reflexivity.
  - inversion_clear Hl as [|? ? Ha _].
    cbn [base64 unbase64].
    destruct (unsextet_sextet (a / 4)) as [-> _]; [sextet_range|].
    destruct (unsextet_sextet (a mod 4 * 16)) as [-> _]; [sextet_range|].
    rewrite Ascii.eqb_refl. do 2 f_equal. sextet_range.
  - inversion_clear Hl as [|? ? Ha Hl']. inversion_clear Hl' as [|? ? Hb _].
    cbn [base64 unbase64].
    destruct (unsextet_sextet (a / 4)) as [-> _]; [sextet_range|].
    destruct (unsextet_sextet (a mod 4 * 16 + b / 16)) as [-> _]; [sextet_range|].
    destruct (unsextet_sextet (b mod 16 * 4)) as [-> ->]; [sextet_range|].
    rewrite Ascii.eqb_refl. f_equal. f_equal; [|f_equal]; sextet_range.
  - inversion_clear Hl as [|? ? Ha Hl']. inversion_clear Hl' as [|? ? Hb Hl].
    inversion_clear Hl as [|? ? Hc Hl'].
    cbn [base64].
    destruct (unsextet_sextet (c mod 64)) as [E4 N4]; [sextet_range|].
    rewrite (unbase64_group _ _ _ _ _ N4), E4, (IH Hl').
    destruct (unsextet_sextet (a / 4)) as [-> _]; [sextet_range|].
    destruct (unsextet_sextet (a mod 4 * 16 + b / 16)) as [-> _]; [sextet_range|].
    destruct (unsextet_sextet (b mod 16 * 4 + c / 64)) as [-> _]; [sextet_range|].
    f_equal. f_equal; [|f_equal; [|f_equal]]; sextet_range.
Qed.

(* ------------------------------------------------------------------ *)
(** ** The audio codec: quantization *)

Lemma Qle_bool_cases (a b : Q) :
  (Qle_bool a b = true /\ (a <= b)%Q) \/ (Qle_bool a b = false /\ (b < a)%Q).
Proof.
  destruct (Qle_bool a b) eqn:E.
  - left. split; [reflexivity | now apply Qle_bool_iff].
  - right. split; [reflexivity|]. apply Qnot_le_lt. intros Hle.
    apply Qle_bool_iff in Hle. congruence.
Qed.

(** The clamped value of a sample lies between -1 and 1, and is the sample
    itself when that already does. *)
Lemma clamped_range (x : float) (c : Q) :
  clamped x = Some c ->
  (-1 <= c <= 1)%Q
  /\ (forall q, x = Finite q -> (-1 <= q <= 1)%Q -> (c == q)%Q).
Proof.
  unfold clamped, clamp. destruct x as [q| | |]; simpl; try discriminate.
  - destruct (Qle_bool_cases 1 q) as [[-> H1]|[-> H1]];
      [destruct (Qle_bool_cases (-1) 1) as [[-> H2]|[-> H2]]
      |destruct (Qle_bool_cases (-1) q) as [[-> H2]|[-> H2]]];
      intros E; injection E as <-; (split; [lra|]);
      intros q' Eq [Hlo Hhi]; injection Eq as <-; lra.
  - intros E. injection E as <-. split; [lra|]. discriminate.
  - intros E. injection E as <-. split; [lra|]. discriminate.
Qed.

Lemma pcm16_int16 (x : float) : is_int16 (pcm16 x).
Proof.
  unfold pcm16.
  destruct (if negative (clamp x) then _ else _); simpl;
    try apply wrap16_range; unfold is_int16; lia.
Qed.

(** A sample that is not a number is stored as 0. *)
Lemma pcm16_NaN : pcm16 NaN = 0%Z.
Proof. reflexivity. Qed.

Lemma ceiling_scaled (c : Q) :
  (-1 <= c)%Q -> (c < 0)%Q ->
  let v := Qceiling (c * inject_Z 32768) in
  (-32768 <= v <= 0)%Z
  /\ (0 <= inject_Z v / 32768 - c)%Q
  /\ (inject_Z v / 32768 - c < 1 # 32768)%Q.
Proof.
  intros H1 H2 v.
  pose proof (Qle_ceiling (c * inject_Z 32768)) as Hc.
  pose proof (Qceiling_lt (c * inject_Z 32768)) as Hl.
  fold v in Hc, Hl. clearbody v.
  unfold Z.sub in Hl. rewrite inject_Z_plus, inject_Z_opp in Hl.
  change (inject_Z 1) with 1%Q in Hl.
  change (inject_Z 32768) with 32768%Q in *.
  split; [split|].
  - rewrite Zle_Qle. change (inject_Z (-32768)) with (-32768)%Q. lra.
  - assert (H : (inject_Z v < inject_Z 1)%Q)
      by (change (inject_Z 1) with 1%Q; lra).
    rewrite <- Zlt_Qlt in H. lia.
  - unfold Qdiv. change (/ 32768)%Q with (1 # 32768)%Q. split; lra.
Qed.

Lemma floor_scaled (c : Q) :
  (0 <= c)%Q -> (c <= 1)%Q ->
  let v := Qfloor (c * inject_Z 32767) in
  (0 <= v <= 32767)%Z
  /\ (0 <= c - inject_Z v / 32768)%Q
  /\ (c - inject_Z v / 32768 < 2 # 32768)%Q.
Proof.
  intros H1 H2 v.
  pose proof (Qfloor_le (c * inject_Z 32767)) as Hc.
  pose proof (Qlt_floor (c * inject_Z 32767)) as Hl.
  fold v in Hc, Hl. clearbody v.
  rewrite inject_Z_plus in Hl.
  change (inject_Z 1) with 1%Q in Hl.
  change (inject_Z 32767) with 32767%Q in *.
  split; [split|].
  - assert (H : (inject_Z (-1) < inject_Z v)%Q)
      by (change (inject_Z (-1)) with (-1)%Q; lra).
    rewrite <- Zlt_Qlt in H. lia.
  - rewrite Zle_Qle. change (inject_Z 32767) with 32767%Q. lra.
  - unfold Qdiv. change (/ 32768)%Q with (1 # 32768)%Q. split; lra.
Qed.

(** The stored value of a sample with clamped value [c]: the scaled value
    rounded towards zero, with scale 32768 below zero and 32767 from zero
    on; and what dividing it by 32768 loses. *)
Lemma pcm16_clamped (x : float) (c : Q) :
  clamped x = Some c ->
  ((c < 0)%Q ->
     pcm16 x = Qceiling (c * inject_Z 32768)
     /\ (0 <= inject_Z (pcm16 x) / 32768 - c < 1 # 32768)%Q)
  /\ ((0 <= c)%Q ->
       pcm16 x = Qfloor (c * inject_Z 32767)
       /\ (0 <= c - inject_Z (pcm16 x) / 32768 < 2 # 32768)%Q).
Proof.
  intros Hc. destruct (clamped_range x c Hc) as [[Hlo Hhi] _].
  unfold clamped in Hc. unfold pcm16.
  destruct (clamp x) as [c'| | |]; try discriminate. injection Hc as ->.
  unfold negative, times, ToInt16, Qtrunc.
  destruct (Qle_bool_cases 0 c) as [[-> H0]|[-> H0]]; simpl negb; cbv iota.
  - split; [intros; lra|]. intros _.
    destruct (floor_scaled c H0 Hhi) as (Hv & Hb).
    destruct (Qle_bool_cases 0 (c * inject_Z 32767)) as [[-> _]|[_ Hneg]].
    + rewrite wrap16_int16 by (unfold is_int16; lia). split; [reflexivity | exact Hb].
    + change (inject_Z 32767) with 32767%Q in Hneg. lra.
  - split; [|intros; lra]. intros _.
    destruct (ceiling_scaled c Hlo H0) as (Hv & Hb).
    destruct (Qle_bool_cases 0 (c * inject_Z 32768)) as [[_ Hpos]|[-> _]].
    + change (inject_Z 32768) with 32768%Q in Hpos. lra.
    + rewrite wrap16_int16 by (unfold is_int16; lia). split; [reflexivity | exact Hb].
Qed.

Lemma base64_length (l : list Z) :
  Z.of_nat (String.length (base64 l))
  = (4 * ((Z.of_nat (List.length l) + 2) / 3))%Z.
Proof.
  induction l as [|a|a b|a b c l IH] using list_ind3.
  - reflexivity.
  - reflexivity.
  - reflexivity.
  - cbn [base64 String.length List.length].
    rewrite !Nat2Z.inj_succ, IH. Z.to_euclidean_division_equations. lia.
Qed.

(** C6 (as the code has it). The conversion of a chunk is a function of the
    chunk alone. Every sample that is a number is clamped to [-1, 1] and
    scaled to the signed 16-bit range (by 32768 below zero, by 32767 from
    zero on, rounding towards zero; a NaN is stored as 0); each stored value
    gives its low byte, then its high byte; the bytes are wrapped as Base64,
    four characters for three bytes. There is no error branch: the
    conversion returns for every input, the empty one included, for which
    the result is the empty string. *)
Theorem encode_total :
  forall (Ev : Type) (x : list float),
    @encode Ev x = ([], Js.Normal (base64 (buffer (map pcm16 x))))
    /\ @encode Ev [] = ([], Js.Normal EmptyString)
    /\ Forall (fun xi =>
                 is_int16 (pcm16 xi)
                 /\ (xi = NaN -> pcm16 xi = 0%Z)
                 /\ (xi <> NaN ->
                     exists c,
                       clamped xi = Some c
                       /\ (-1 <= c <= 1)%Q
                       /\ (forall q, xi = Finite q -> (-1 <= q <= 1)%Q ->
                                     (c == q)%Q)
                       /\ ((c < 0)%Q ->
                           pcm16 xi = Qceiling (c * inject_Z 32768))
                       /\ ((0 <= c)%Q ->
                           pcm16 xi = Qfloor (c * inject_Z 32767)))) x
    /\ Forall is_byte (buffer (map pcm16 x))
    /\ (forall v, buffer [v] = [v mod 256; (v / 256) mod 256]%Z
                  /\ (v mod 256 + 256 * ((v / 256) mod 256) = v mod 65536)%Z)
    /\ Z.of_nat (String.length (base64 (buffer (map pcm16 x))))
       = (4 * ((2 * Z.of_nat (List.length x) + 2) / 3))%Z.
Proof.
  intros Ev x. split; [apply encode_returns|]. split; [reflexivity|].
  split; [|split; [apply buffer_bytes|split]].
  - apply Forall_forall. intros xi _. split; [apply pcm16_int16|].
    split; [now intros -> |]. intros Hnan.
    assert (Hc : exists c, clamped xi = Some c).
    { unfold clamped, clamp.
      destruct xi as [q| | |]; [| | |now elim Hnan]; simpl; now eexists. }
    destruct Hc as [c Hc]. exists c. split; [exact Hc|].
    destruct (clamped_range xi c Hc) as [Hr Hid].
    destruct (pcm16_clamped xi c Hc) as [Hneg Hpos].
    split; [exact Hr|]. split; [exact Hid|].
    split; intros H; [now apply Hneg | now apply Hpos].
  - intros v. split; [reflexivity|]. Z.to_euclidean_division_equations. lia.
  - rewrite base64_length, buffer_length, length_map. do 2 f_equal. lia.
Qed.

Lemma encode_total_witness :
  @encode unit [Finite (1 # 2); Finite (-3 # 2); NaN]
  = ([], Js.Normal "/z8AgAAA")
  /\ pcm16 (Finite (1 # 2)) = 16383%Z
  /\ pcm16 (Finite (-3 # 2)) = (-32768)%Z.
Proof.
  destruct (encode_total unit [Finite (1 # 2); Finite (-3 # 2); NaN])
    as (E & _ & H & _).
  split; [rewrite E; reflexivity|].
  inversion_clear H as [|? ? (_ & _ & H1) H']. inversion_clear H' as [|? ? (_ & _ & H2) _].
  destruct H1 as (c1 & Hc1 & _ & _ & _ & P1); [discriminate|].
  destruct H2 as (c2 & Hc2 & _ & _ & N2 & _); [discriminate|].
  injection Hc1 as <-. injection Hc2 as <-.
  split.
  - rewrite P1; [reflexivity | discriminate].
  - rewrite N2; reflexivity.
Defined.

(** C6, as stated, fails on the empty chunk: the conversion does not fail
    there, it returns the empty string. *)
Lemma encode_empty_succeeds :
  @encode unit [] = ([], Js.Normal EmptyString)
  /\ (forall e, Js.outcome (@encode unit []) <> Js.Throw e).
Proof. split; [reflexivity | discriminate]. Qed.

(* ------------------------------------------------------------------ *)
(** ** The audio codec: round trip *)

Lemma roundtrip_samples (x : list float) :
  roundtrip x = Some (map replayed x).
Proof.
  unfold roundtrip. rewrite encode_returns.
  unfold Js.ret, decode, base64ToUint8Array.
  rewrite unbase64_base64 by apply buffer_bytes.
  unfold decodeAudioData. rewrite buffer_length.
  replace (Z.of_nat (2 * List.length (map pcm16 x)) mod (2 * 1) =? 0)%Z
    with true.
  - cbn [samples]. rewrite int16s_buffer, map_map; [reflexivity|].
    apply Forall_forall. intros v Hv. apply in_map_iff in Hv as (xi & <- & _).
    apply pcm16_int16.
  - symmetry. apply Z.eqb_eq. rewrite Nat2Z.inj_mul.
    change (2 * 1)%Z with 2%Z. change (Z.of_nat 2) with 2%Z.
    now rewrite Z.mul_comm, Z.mod_mul.
Qed.

(** C3 (as the model of the decoder has it). Decoding the encoding of a
    chunk gives as many samples as the chunk has, and each differs from the
    clamped value of the sample it comes from by less than two quantization
    steps (2/32768); by less than one step when that value is negative. *)
Theorem roundtrip_error :
  forall x : list float,
    exists y,
      roundtrip x = Some y
      /\ List.length y = List.length x
      /\ Forall2 (fun xi yi =>
                    forall c, clamped xi = Some c ->
                      (Qabs (yi - c) < 2 # 32768)%Q
                      /\ ((c < 0)%Q -> (Qabs (yi - c) < 1 # 32768)%Q)) x y.
Proof.
  intros x. exists (map replayed x).
  split; [apply roundtrip_samples|]. split; [apply length_map|].
  induction x as [|xi x IH]; cbn [map]; constructor; trivial.
  intros c Hc. unfold replayed.
  destruct (pcm16_clamped xi c Hc) as [Hneg Hpos].
  destruct (Qlt_le_dec c 0) as [Hlt|Hge].
  - destruct (Hneg Hlt) as [_ [H0 H1]].
    split; [|intros _]; apply (proj2 (Qabs_Qlt_condition _ _)); (split; [lra|lra]).
  - destruct (Hpos Hge) as [_ [H0 H1]].
    split; [|intros Hlt; lra].
    apply (proj2 (Qabs_Qlt_condition _ _)); (split; [lra|lra]).
Qed.

Lemma roundtrip_error_witness :
  exists y,
    roundtrip [Finite (1 # 2); Finite (-1 # 3)] = Some y
    /\ Forall2 (fun c yi => (Qabs (yi - c) < 2 # 32768)%Q)
         [1 # 2; -1 # 3]%Q y.
Proof.
  destruct (roundtrip_error [Finite (1 # 2); Finite (-1 # 3)])
    as (y & E & _ & H).
  exists y. split; [exact E|].
  inversion_clear H as [|? y1 ? ys H1 H']. inversion_clear H' as [|? y2 ? ys' H2 H''].
  inversion_clear H''.
  repeat constructor.
  - apply (H1 (1 # 2)%Q). reflexivity.
  - apply (H2 (-1 # 3)%Q). reflexivity.
Defined.

(** C3, as stated, fails on a sample just below full scale: 65535/65536 is
    stored as 32766 and played back as 32766/32768, which is one and a half
    quantization steps away. *)
Lemma roundtrip_exceeds_one_step :
  roundtrip [Finite (65535 # 65536)] = Some [(32766 # 32768)%Q]
  /\ clamped (Finite (65535 # 65536)) = Some (65535 # 65536)%Q
  /\ ~ (Qabs ((32766 # 32768) - (65535 # 65536)) <= 1 # 32768)%Q.
Proof.
  split; [reflexivity|]. split; [reflexivity|].
  intros H. vm_compute in H. now apply H.
Qed.

(* ------------------------------------------------------------------ *)
(** ** The capture handler *)

(** C7. A captured chunk is transmitted exactly when the socket the handler
    closes over is open. In every other state of the socket the guarded
    send makes no outside call, does not throw and leaves the session state
    as it is; of the whole handler only the volume of the view remains. *)
Theorem frame_sent_iff_open :
  forall (T : Type) (clock : Clock T) (rms : list float -> float)
         (ws : WebSocket) (inputData : list float) (s : Session T),
    let frame := AudioFrame (base64 (buffer (map pcm16 inputData))) in
    let r := onaudioprocess rms ws inputData s in
    completed r = Js.Normal tt
    /\ state r = setVolume (rms inputData) s
    /\ (In (WsSend (ws_id ws) frame) (calls r) <-> readyState ws = OPEN)
    /\ (readyState ws = OPEN -> calls r = [WsSend (ws_id ws) frame])
    /\ (readyState ws <> OPEN ->
        calls r = []
        /\ forall data (s0 : Session T),
             send_audio ws data s0 = ([], Js.Normal tt, s0)).
Proof.
  intros T clock rms ws inputData s frame r.
  assert (E : onaudioprocess rms ws inputData s
               = (if ReadyState_eqb (readyState ws) OPEN
                  then [WsSend (ws_id ws) frame] else [],
                  Js.Normal tt, setVolume (rms inputData) s)).
  { unfold frame, onaudioprocess, op_bind, update, lift, send_audio.
    rewrite encode_returns. unfold send.
    destruct (readyState ws); reflexivity. }
  unfold r. rewrite E. unfold calls, completed, state. simpl.
  split; [reflexivity|]. split; [reflexivity|].
  destruct (readyState ws) eqn:Ers; simpl; repeat split;
    try discriminate; try tauto; try (intros; congruence);
    try (intros data s0; unfold send_audio; rewrite Ers; reflexivity).
Qed.

Lemma frame_sent_iff_open_witness :
  calls (onaudioprocess (T:=Z) (fun _ => Finite 0) (mkSocket 1 OPEN)
           [Finite (1 # 2)] mounted)
  = [WsSend 1 (AudioFrame "/z8=")]
  /\ calls (onaudioprocess (T:=Z) (fun _ => Finite 0) (mkSocket 1 CLOSING)
              [Finite (1 # 2)] mounted)
     = [].
Proof.
  split.
  - apply (frame_sent_iff_open Z Clock_Z (fun _ => Finite 0) (mkSocket 1 OPEN)
             [Finite (1 # 2)] mounted).
    reflexivity.
  - apply (frame_sent_iff_open Z Clock_Z (fun _ => Finite 0) (mkSocket 1 CLOSING)
             [Finite (1 # 2)] mounted).
    discriminate.
Defined.

(* ------------------------------------------------------------------ *)
(** ** Playback: interruption *)

Section Interruption.

Context {T : Type} `{Clock T}.

Lemma stop_caught (n : AudioBufferSourceNode) (s : Session T) :
  op_try (lift (stop n)) (fun _ => op_ret tt) s
  = (if source_started n then [SourceStop (source_id n)] else [],
     Js.Normal tt, s).
Proof. unfold op_try, lift, stop. now destruct (source_started n). Qed.

Lemma stop_started (n : AudioBufferSourceNode) (s : Session T) :
  source_started n = true ->
  lift (stop n) s = ([SourceStop (source_id n)], Js.Normal tt, s).
Proof. unfold lift, stop. now intros ->. Qed.

(** Stopping inside [try]/[catch] goes through the whole set: the started
    sources are stopped, the others are skipped, nothing is thrown. *)
Lemma forEach_stop_caught (l : list AudioBufferSourceNode) (s : Session T) :
  forEach l (fun source => op_try (lift (stop source)) (fun _ => op_ret tt)) s
  = (stops_of (filter source_started l), Js.Normal tt, s).
Proof.
  induction l as [|n l IH]; [reflexivity|].
  cbn [forEach filter]. unfold op_bind at 1.
  rewrite stop_caught, IH. now destruct (source_started n).
Qed.

(** Stopping without a guard goes through the whole set when every source
    of it has been started. *)
Lemma forEach_stop_started (l : list AudioBufferSourceNode) (s : Session T) :
  Forall (fun n => source_started n = true) l ->
  forEach l (fun source => lift (stop source)) s
  = (stops_of l, Js.Normal tt, s).
Proof.
  induction 1 as [|n l Hn _ IH]; [reflexivity|].
  cbn [forEach]. unfold op_bind at 1.
  rewrite (stop_started n s Hn), IH. reflexivity.
Qed.

Lemma interrupt_result (s : Session T) :
  interrupt s
  = (stops_of (filter source_started (audioSourcesRef s)), Js.Normal tt,
     set_nextStartTimeRef zero (set_audioSourcesRef [] s)).
Proof.
  unfold interrupt, op_bind, read. rewrite forEach_stop_caught.
  unfold update. simpl. now rewrite app_nil_r.
Qed.

End Interruption.

(** C8. In every state of the playback pipeline, whatever the in-flight
    set holds and wherever the play head stands, the interruption stops
    every in-flight source that can be stopped, empties the set and puts
    the play head back to zero; it does not throw, also when [stop()] fails
    on some source of the set. The rest of the state is as before. *)
Theorem interrupt_clears :
  forall (T : Type) (clock : Clock T) (s : Session T),
    let r := interrupt s in
    completed r = Js.Normal tt
    /\ audioSourcesRef (state r) = []
    /\ nextStartTimeRef (state r) = zero
    /\ state r = set_nextStartTimeRef zero (set_audioSourcesRef [] s)
    /\ calls r = stops_of (filter source_started (audioSourcesRef s))
    /\ (forall n, In n (audioSourcesRef s) ->
          (source_started n = true -> In (SourceStop (source_id n)) (calls r))
          /\ (source_started n = false ->
              exists e, Js.outcome (stop (T:=T) n) = Js.Throw e)).
Proof.
  intros T clock s r. unfold r. rewrite interrupt_result.
  unfold completed, calls, state. simpl.
  repeat split; trivial.
  - intros Hs. unfold stops_of.
    apply (in_map (fun n => SourceStop (source_id n))).
    apply filter_In. now split.
  - intros Hs. unfold stop. rewrite Hs. now eexists.
Qed.

Lemma interrupt_clears_witness :
  interrupt (T:=Z)
    (set_nextStartTimeRef 42%Z
       (set_audioSourcesRef
          [mkSource 7 true; mkSource 8 false; mkSource 9 true] mounted))
  = ([SourceStop 7; SourceStop 9], Js.Normal tt, mounted).
Proof.
  pose (s := set_nextStartTimeRef 42%Z
               (set_audioSourcesRef
                  [mkSource 7 true; mkSource 8 false; mkSource 9 true]
                  (mounted (T:=Z)))).
  destruct (interrupt_clears Z Clock_Z s) as (Hc & _ & _ & Hs & Ht & _).
  fold s. destruct (interrupt s) as [[t c] s'].
  unfold completed, calls, state in *. simpl in *.
  now rewrite Hc, Hs, Ht.
Defined.

(* ------------------------------------------------------------------ *)
(** ** Playback: scheduling *)

Section Scheduling.

Context {T : Type} `{Clock T}.

Lemma audio_received_result (b : bool) (now : T) (s : Session T) :
  audio_received b now s
  = ([], Js.Normal (b && is_set (outputContextRef s)),
     if b && is_set (outputContextRef s)
     then set_nextStartTimeRef (later (nextStartTimeRef s) now) s
     else s).
Proof.
  unfold audio_received, op_bind, read.
  destruct (b && is_set (outputContextRef s)); reflexivity.
Qed.

Lemma audio_decoded_result (d : T) (s : Session T) :
  audio_decoded d s
  = ([SourceStart (created s) (nextStartTimeRef s) d], Js.Normal tt,
     mkSession (isActive s) (isConnecting s) (volume s) (wsRef s)
       (sessionRef s) (inputContextRef s) (outputContextRef s)
       (add (nextStartTimeRef s) d)
       (audioSourcesRef s ++ [mkSource (created s) true])%list
       (S (created s))).
Proof. reflexivity. Qed.

Lemma enqueue_result (now d : T) (s : Session T) :
  enqueue now d s
  = if is_set (outputContextRef s)
    then ([SourceStart (created s) (later (nextStartTimeRef s) now) d],
          Js.Normal tt, enqueued now d s)
    else ([], Js.Normal tt, s).
Proof.
  unfold enqueue, op_bind. rewrite audio_received_result.
  destruct (is_set (outputContextRef s)); reflexivity.
Qed.

Lemma scheduled_app (a b : list (Io T)) :
  scheduled (a ++ b) = (scheduled a ++ scheduled b)%list.
Proof.
  induction a as [|e a IH]; [reflexivity|].
  destruct e; simpl; now rewrite ?IH.
Qed.

Lemma run_cons (o : Op (T:=T) unit) (ops : list (Op (T:=T) unit))
    (s s1 : Session T) (t : list (Io T)) :
  o s = (t, Js.Normal tt, s1) ->
  run (o :: ops) s
  = ((t ++ calls (run ops s1))%list, completed (run ops s1), state (run ops s1)).
Proof.
  intros E. cbn [run]. unfold op_bind. rewrite E.
  now destruct (run ops s1) as [[t' r] s2].
Qed.

Context `{!ClockLaws T}.

Lemma later_left (a b : T) : leb a (later a b) = true.
Proof. unfold later. destruct (leb a b) eqn:E; [exact E | apply leb_refl]. Qed.

Lemma later_right (a b : T) : leb b (later a b) = true.
Proof.
  unfold later. destruct (leb a b) eqn:E; [apply leb_refl|].
  destruct (leb_total a b); congruence.
Qed.

Lemma reaches_earlier (b b' : T) (l : list (T * T)) (e : T) :
  leb b' b = true -> reaches b l e -> reaches b' l e.
Proof.
  destruct l as [|[w d] l]; simpl.
  - intros. now apply leb_trans with b.
  - intros Hb [Hw Hl]. split; [now apply leb_trans with b | exact Hl].
Qed.

Lemma reaches_app (b m e : T) (l1 l2 : list (T * T)) :
  reaches b l1 m -> reaches m l2 e -> reaches b (l1 ++ l2) e.
Proof.
  revert b. induction l1 as [|[w d] l1 IH]; simpl; intros b.
  - intros Hb. now apply reaches_earlier.
  - intros [Hw Hl] H2. split; [exact Hw | now apply IH].
Qed.

Lemma reaches_follows (b e : T) (l : list (T * T)) :
  reaches b l e -> follows b l.
Proof.
  revert b. induction l as [|[w d] l IH]; simpl; intros b; [trivial|].
  intros [Hw Hl]. split; [exact Hw | now apply IH].
Qed.

Lemma follows_gapless (b : T) (l : list (T * T)) : follows b l -> gapless l.
Proof. destruct l as [|[w d] l]; simpl; tauto. Qed.

Lemma rising_earlier (b b' : T) (l : list T) :
  leb b' b = true -> rising b l -> rising b' l.
Proof.
  destruct l as [|t l]; simpl; [trivial|].
  intros Hb [Ht Hl]. split; [now apply leb_trans with b | exact Hl].
Qed.

Lemma follows_rising (b : T) (l : list (T * T)) :
  Forall (fun p => leb zero (snd p) = true) l ->
  follows b l -> rising b (map fst l).
Proof.
  intros Hd. revert b. induction Hd as [|[w d] l Hd _ IH]; simpl; intros b;
    [trivial|].
  intros [Hw Hl]. split; [exact Hw|].
  apply rising_earlier with (add w d); [now apply add_nonneg | now apply IH].
Qed.

Lemma rising_nondecreasing (b : T) (l : list T) : rising b l -> nondecreasing l.
Proof. destruct l; simpl; tauto. Qed.

(** A run of whole passes: it completes; what it schedules follows on from
    the play head it found; and with an output graph it schedules every
    buffer, in the order of arrival. *)
Lemma run_enqueue (requests : list (T * T)) (s : Session T) :
  let r := run (map (fun q => enqueue (fst q) (snd q)) requests) s in
  completed r = Js.Normal tt
  /\ reaches (nextStartTimeRef s) (scheduled (calls r))
       (nextStartTimeRef (state r))
  /\ (is_set (outputContextRef s) = true ->
      map snd (scheduled (calls r)) = map snd requests).
Proof.
  revert s. induction requests as [|[now d] requests IH]; intros s.
  - simpl. repeat split. apply leb_refl.
  - cbn [map fst snd].
    pose proof (enqueue_result now d s) as E.
    destruct (is_set (outputContextRef s)) eqn:Eo.
    + rewrite (run_cons _ _ _ _ _ E).
      destruct (IH (enqueued now d s)) as (Hc & Hr & Hm).
      unfold calls at 1 2 5, completed at 1, state at 1. cbn [fst snd].
      split; [exact Hc|]. rewrite scheduled_app. cbn [scheduled app map snd].
      split.
      * split; [apply later_left | exact Hr].
      * intros _. f_equal. apply Hm. exact Eo.
    + rewrite (run_cons _ _ _ _ _ E).
      destruct (IH s) as (Hc & Hr & Hm).
      unfold calls at 1 2 5, completed at 1, state at 1. cbn [fst snd app].
      split; [exact Hc|]. split; [exact Hr | discriminate].
Qed.

(** A run of the two halves in any interleaving. *)
Lemma run_audio_steps (steps : list AudioStep) (s : Session T) :
  let r := run (map audio_step steps) s in
  completed r = Js.Normal tt
  /\ reaches (nextStartTimeRef s) (scheduled (calls r))
       (nextStartTimeRef (state r))
  /\ (Forall step_duration_ok steps ->
      Forall (fun p => leb zero (snd p) = true) (scheduled (calls r))).
Proof.
  revert s. induction steps as [|[now|d] steps IH]; intros s.
  - simpl. repeat split; [apply leb_refl | constructor].
  - cbn [map].
    assert (E : audio_step (Received now) s
                = ([], Js.Normal tt,
                   if is_set (outputContextRef s)
                   then set_nextStartTimeRef (later (nextStartTimeRef s) now) s
                   else s)).
    { unfold audio_step, op_bind. rewrite audio_received_result. reflexivity. }
    rewrite (run_cons _ _ _ _ _ E).
    match type of E with _ = (_, _, ?s1) => destruct (IH s1) as (Hc & Hr & Hd) end.
    unfold calls at 1 2 5, completed at 1, state at 1. cbn [fst snd app].
    split; [exact Hc|]. split.
    + revert Hr. apply reaches_earlier.
      destruct (is_set (outputContextRef s)); [apply later_left | apply leb_refl].
    + intros Hs. apply Hd. now inversion Hs.
  - cbn [map].
    pose proof (audio_decoded_result d s) as E.
    rewrite (run_cons _ _ _ _ _ E).
    match type of E with _ = (_, _, ?s1) => destruct (IH s1) as (Hc & Hr & Hd) end.
    unfold calls at 1 2 5, completed at 1, state at 1. cbn [fst snd].
    split; [exact Hc|]. rewrite scheduled_app. cbn [scheduled app].
    split.
    + split; [apply leb_refl | exact Hr].
    + intros Hs. inversion_clear Hs as [|? ? Hd0 Hs'].
      constructor; [exact Hd0 | now apply Hd].
Qed.

End Scheduling.

#[export] Instance ClockLaws_Z : ClockLaws Z.
Proof.
  split; simpl; intros.
  - apply Z.leb_refl.
  - apply Z.leb_le. apply Z.leb_le in H, H0. lia.
  - rewrite !Z.leb_le. lia.
  - apply Z.leb_le. apply Z.leb_le in H. lia.
Qed.

#[export] Instance ClockLaws_Q : ClockLaws Q.
Proof.
  split; simpl; intros.
  - apply Qle_bool_iff, Qle_refl.
  - apply Qle_bool_iff. apply Qle_bool_iff in H, H0. lra.
  - rewrite !Qle_bool_iff. destruct (Qlt_le_dec a b); [left|right]; lra.
  - apply Qle_bool_iff. apply Qle_bool_iff in H. lra.
Qed.

(** C2. A pass through the audio branch starts the buffer at
    [max(nextStartTime, currentTime)] and then moves the play head to that
    start plus the duration of the buffer. Hence, for every sequence of
    passes, whatever the clock shows at each of them: all buffers are
    scheduled, in the order of arrival; no source starts before the end
    (start plus duration) of the one scheduled before it; and, durations not
    being negative, the start times never decrease. The same holds when the
    two halves of several passes interleave around the decoder. *)
Theorem playback_never_overlaps :
  forall (T : Type) (clock : Clock T), ClockLaws T ->
  forall s : Session T,
    (forall now d,
        is_set (outputContextRef s) = true ->
        let r := enqueue now d s in
        completed r = Js.Normal tt
        /\ calls r
           = [SourceStart (created s) (later (nextStartTimeRef s) now) d]
        /\ nextStartTimeRef (state r)
           = add (later (nextStartTimeRef s) now) d
        /\ leb (nextStartTimeRef s) (later (nextStartTimeRef s) now) = true
        /\ leb now (later (nextStartTimeRef s) now) = true)
    /\ (forall requests : list (T * T),
           let r := run (map (fun q => enqueue (fst q) (snd q)) requests) s in
           completed r = Js.Normal tt
           /\ (is_set (outputContextRef s) = true ->
               map snd (scheduled (calls r)) = map snd requests)
           /\ gapless (scheduled (calls r))
           /\ (Forall (fun q => leb zero (snd q) = true) requests ->
               nondecreasing (map fst (scheduled (calls r)))))
    /\ (forall steps : list AudioStep,
           let r := run (map audio_step steps) s in
           completed r = Js.Normal tt
           /\ gapless (scheduled (calls r))
           /\ (Forall step_duration_ok steps ->
               nondecreasing (map fst (scheduled (calls r))))).
Proof.
  intros T clock laws s. split; [|split].
  - intros now d Ho r. unfold r. rewrite enqueue_result, Ho.
    unfold completed, calls, state. simpl.
    repeat split; [apply later_left | apply later_right].
  - intros requests r.
    destruct (run_enqueue requests s) as (Hc & Hr & Hm). fold r in Hc, Hr, Hm.
    split; [exact Hc|]. split; [exact Hm|].
    apply reaches_follows in Hr. split.
    + now apply follows_gapless in Hr.
    + intros Hd.
      destruct (is_set (outputContextRef s)) eqn:Eo.
      * apply rising_nondecreasing with (nextStartTimeRef s).
        apply follows_rising; [|exact Hr].
        apply Forall_forall. intros p Hp.
        apply (in_map snd) in Hp. rewrite (Hm eq_refl) in Hp.
        apply in_map_iff in Hp as (q & <- & Hq).
        now apply (proj1 (Forall_forall _ _) Hd q).
      * assert (E : scheduled (calls r) = []).
        { unfold r. clear - Eo. revert s Eo.
          induction requests as [|[now d] requests IH]; intros s Eo;
            [reflexivity|].
          cbn [map fst snd].
          pose proof (enqueue_result now d s) as E. rewrite Eo in E.
          rewrite (run_cons _ _ _ _ _ E). unfold calls at 1. cbn [fst app].
          now apply IH. }
        rewrite E. exact I.
  - intros steps r.
    destruct (run_audio_steps steps s) as (Hc & Hr & Hd). fold r in Hc, Hr, Hd.
    split; [exact Hc|]. apply reaches_follows in Hr. split.
    + now apply follows_gapless in Hr.
    + intros Hs. apply rising_nondecreasing with (nextStartTimeRef s).
      apply follows_rising; [now apply Hd | exact Hr].
Qed.

Lemma playback_never_overlaps_witness :
  scheduled (calls (run (map (fun q => enqueue (fst q) (snd q)) burst) listening))
  = [(5, 3); (8, 2); (10, 4); (40, 1)]%Z
  /\ gapless (scheduled (calls (run (map (fun q => enqueue (fst q) (snd q)) burst)
                                  listening)))
  /\ nondecreasing
       (map fst (scheduled (calls (run (map (fun q => enqueue (fst q) (snd q))
                                         burst) listening)))).
Proof.
  destruct (playback_never_overlaps Z Clock_Z ClockLaws_Z listening)
    as (_ & H & _).
  destruct (H burst) as (_ & _ & Hg & Hn).
  split; [reflexivity|]. split; [exact Hg|].
  apply Hn. repeat constructor.
Defined.

(* ------------------------------------------------------------------ *)
(** ** Stopping the session *)

Section Stopping.

Context {T : Type} `{Clock T}.

Lemma lift_emit (e : Io T) (s : Session T) :
  lift (Js.emit e) s = ([e], Js.Normal tt, s).
Proof. reflexivity. Qed.

Lemma lift_throw (e : Js.Error) (s : Session T) :
  lift (@Js.throw (Io T) unit e) s = ([], Js.Throw e, s).
Proof. reflexivity. Qed.

Ltac session_cbn :=
  cbn [isActive isConnecting volume wsRef sessionRef inputContextRef
       outputContextRef nextStartTimeRef audioSourcesRef created
       setIsActive setIsConnecting setVolume set_wsRef set_sessionRef
       set_inputContextRef set_outputContextRef set_nextStartTimeRef
       set_audioSourcesRef rejects live_id app].

Ltac session_cbn_in E :=
  cbn [isActive isConnecting volume wsRef sessionRef inputContextRef
       outputContextRef nextStartTimeRef audioSourcesRef created
       setIsActive setIsConnecting setVolume set_wsRef set_sessionRef
       set_inputContextRef set_outputContextRef set_nextStartTimeRef
       set_audioSourcesRef rejects live_id app] in E.

Ltac session_cases :=
  repeat (session_cbn; rewrite ?lift_emit, ?lift_throw;
          match goal with
          | |- context [match ?x with Some _ => _ | None => _ end] =>
              let E := fresh "E" in
              destruct x eqn:E; session_cbn_in E; rewrite ?E
          end);
  repeat (progress (session_cbn; rewrite ?lift_emit, ?lift_throw)).

Ltac session_done :=
  unfold stopped, stopped_live, stopping_live, setIsActive, setIsConnecting,
    setVolume,
    set_wsRef, set_sessionRef, set_inputContextRef, set_outputContextRef,
    set_nextStartTimeRef, set_audioSourcesRef;
  session_cbn;
  repeat match goal with
         | E : _ = Some _ |- _ =>
             rewrite ?E; cbn [ws_close_of close_of session_close_of]; rewrite ?E;
             clear E
         | E : _ = None |- _ =>
             rewrite ?E; cbn [ws_close_of close_of session_close_of]; rewrite ?E;
             clear E
         end;
  cbn [ws_close_of close_of session_close_of rejects live_id app];
  rewrite ?app_nil_r; reflexivity.

Lemma stopSession_result (s : Session T) :
  in_flight_started s ->
  stopSession s
  = ((ws_close_of (wsRef s) ++ close_of (inputContextRef s)
        ++ close_of (outputContextRef s) ++ stops_of (audioSourcesRef s))%list,
     Js.Normal tt, stopped s).
Proof.
  intros Hs. unfold stopSession, op_bind, update, read, op_ret. session_cbn.
  session_cases; rewrite forEach_stop_started by exact Hs; session_done.
Qed.

Lemma live_begin_result (s : Session T) :
  in_flight_started s ->
  Live.stopSession_begin s
  = ((close_of (inputContextRef s) ++ close_of (outputContextRef s)
        ++ stops_of (audioSourcesRef s))%list,
     Js.Normal (sessionRef s), stopping_live s).
Proof.
  intros Hs.
  unfold Live.stopSession_begin, op_bind, update, read, op_ret. session_cbn.
  session_cases; rewrite forEach_stop_started by exact Hs; session_done.
Qed.

Lemma live_resume_result (promise : LiveSession) (s : Session T) :
  Live.stopSession_resume promise s
  = (session_close_of (Some promise), Js.Normal tt, set_sessionRef None s).
Proof.
  unfold Live.stopSession_resume, op_bind, op_try, update, session_close_of.
  destruct (rejects promise); reflexivity.
Qed.

Lemma stopping_live_started (s : Session T) :
  in_flight_started (stopping_live s).
Proof. constructor. Qed.

(** A first part that is run again right after itself finds nothing left
    to release. *)
Lemma live_begin_again (s : Session T) :
  Live.stopSession_begin (stopping_live s)
  = ([], Js.Normal (sessionRef s), stopping_live s).
Proof. now rewrite (live_begin_result _ (stopping_live_started s)). Qed.

Lemma live_stopSession_result (s : Session T) :
  in_flight_started s ->
  Live.stopSession s
  = ((close_of (inputContextRef s) ++ close_of (outputContextRef s)
        ++ stops_of (audioSourcesRef s) ++ session_close_of (sessionRef s))%list,
     Js.Normal tt, stopped_live s).
Proof.
  intros Hs. unfold Live.stopSession, op_bind.
  rewrite (live_begin_result s Hs).
  destruct (sessionRef s) as [promise|] eqn:E.
  - rewrite live_resume_result, <- !app_assoc. reflexivity.
  - unfold op_ret, stopping_live, stopped_live. rewrite E, <- !app_assoc.
    reflexivity.
Qed.


Lemma stopped_started (s : Session T) : in_flight_started (stopped s).
Proof. constructor. Qed.

Lemma stopped_live_started (s : Session T) : in_flight_started (stopped_live s).
Proof. constructor. Qed.

(** In every state the component goes through, the sources of the
    in-flight set have been started. *)
Lemma reachable_started (s : Session T) : reachable s -> in_flight_started s.
Proof.
  induction 1 as [|s s' _ IH E|s b now _ IH|s d _ IH|s n _ IH|s _ IH|s _ IH|s _ IH].
  - constructor.
  - unfold in_flight_started. now rewrite E.
  - rewrite audio_received_result. simpl.
    now destruct (b && is_set (outputContextRef s)).
  - rewrite audio_decoded_result. unfold in_flight_started. simpl.
    apply Forall_app. split; [exact IH | now repeat constructor].
  - unfold ended, update, in_flight_started. simpl.
    apply Forall_forall. intros m Hm. apply filter_In in Hm as [Hm _].
    now apply (proj1 (Forall_forall _ _) IH).
  - rewrite interrupt_result. constructor.
  - rewrite (stopSession_result s IH). constructor.
  - rewrite (live_stopSession_result s IH). constructor.
Qed.

End Stopping.



(* ================================================================== *)
(** * Further properties *)

(* ------------------------------------------------------------------ *)
(** ** The tool-call bridge: dispatch and sequencing *)

Lemma create_resolution lower iso w o :
  handleToolCall lower iso w (mkCall "create_todo" (Some o))
  = after_call w
      (createTodo (Js.get o "title")
         (Js.or (Js.get o "description") (Js.Str EmptyString))
         (Js.or (Js.get o "priority") (Js.Str "medium"))
         (Js.or (Js.get o "due_date")
            (Js.Str (iso (now w + 86400000)%Z))))
      ("Created task " ++ quoted (Js.toString (Js.get o "title"))).
Proof.
  unfold handleToolCall, after_call, api. simpl.
  destruct (crud w _); reflexivity.
Qed.

(** Without arguments the three mutating tools stop at the first property
    they read. *)
Lemma no_args_stops lower iso w tool :
  tool = "create_todo" \/ tool = "delete_todo" \/ tool = "update_todo" ->
  exists m,
    handleToolCall lower iso w (mkCall tool None)
    = ([], Js.Normal (Status "error" (Js.Str m))).
Proof.
  intros [ -> | [ -> | -> ] ]; eexists; reflexivity.
Qed.

Lemma no_search_stops lower iso w tool o :
  tool = "delete_todo" \/ tool = "update_todo" ->
  (forall q, Js.get o "search_title" <> Js.Str q) ->
  exists m,
    handleToolCall lower iso w (mkCall tool (Some o))
    = ([], Js.Normal (Status "error" (Js.Str m))).
Proof.
  intros Ht Hq.
  destruct (Js.get o "search_title") as [| |b|z sh|q|sh] eqn:E;
    try (now elim (Hq q));
    destruct Ht as [ -> | -> ]; unfold handleToolCall; simpl; rewrite E;
    eexists; reflexivity.
Qed.

Lemma undeclared_unknown lower iso w n a :
  n <> "get_todos" -> n <> "create_todo" -> n <> "delete_todo" ->
  n <> "update_todo" ->
  handleToolCall lower iso w (mkCall n a) = ([], Js.Normal UnknownTool).
Proof.
  intros H1 H2 H3 H4. unfold handleToolCall. cbn [name].
  apply String.eqb_neq in H1, H2, H3, H4. now rewrite H1, H2, H3, H4.
Qed.

Lemma after_call_sequenced w c done :
  refresh_follows_success w (after_call w c done).
Proof.
  unfold refresh_follows_success, after_call.
  destruct (crud w c) as [e|] eqn:E.
  - right. right. now exists c, e.
  - right. left. now exists c, (Js.Str done).
Qed.

Lemma silent_error_sequenced w m :
  refresh_follows_success w ([], Js.Normal (Status "error" m)).
Proof.
  left. split; [reflexivity|]. eexists. split; [reflexivity|].
  intros msg. discriminate.
Qed.

(** What a tool call does, by the tool and by what the arguments hold. *)
Lemma handleToolCall_cases lower iso w n a :
  let r := handleToolCall lower iso w (mkCall n a) in
  (n = "get_todos" /\ r = ([], Js.Normal (Todos (map summary (todosRef w)))))
  \/ (~ In n (map fst toolDefinitions) /\ r = ([], Js.Normal UnknownTool))
  \/ (In n ["create_todo"; "delete_todo"; "update_todo"]
      /\ ((exists m, r = ([], Js.Normal (Status "error" m)))
          \/ exists c done, r = after_call w c done)).
Proof.
  intros r. unfold r.
  destruct (String.eqb_spec n "get_todos") as [->|N1]; [left; now split|].
  right.
  destruct (String.eqb_spec n "create_todo") as [->|N2].
  { right. split; [simpl; tauto|]. destruct a as [o|].
    - right. rewrite create_resolution. now eexists _, _.
    - left. destruct (no_args_stops lower iso w "create_todo") as [m ->];
        [tauto | now eexists]. }
  destruct (String.eqb_spec n "delete_todo") as [->|N3].
  { right. split; [simpl; tauto|]. destruct a as [o|].
    - destruct (Js.get o "search_title") as [| |b|z sh|q|sh] eqn:E.
      5:{ rewrite (delete_resolution lower iso w o q E).
          destruct (matching lower w (lower q)) as [|t [|t' ms]].
          - left. now eexists.
          - right. now eexists _, _.
          - left. now eexists. }
      all: left;
        destruct (no_search_stops lower iso w "delete_todo" o) as [m ->];
        [tauto | intros q; rewrite E; discriminate | now eexists].
    - left. destruct (no_args_stops lower iso w "delete_todo") as [m ->];
        [tauto | now eexists]. }
  destruct (String.eqb_spec n "update_todo") as [->|N4].
  { right. split; [simpl; tauto|]. destruct a as [o|].
    - destruct (Js.get o "search_title") as [| |b|z sh|q|sh] eqn:E.
      5:{ rewrite (update_resolution lower iso w o q E).
          destruct (matching lower w (lower q)) as [|t [|t' ms]].
          - left. now eexists.
          - right. now eexists _, _.
          - left. now eexists. }
      all: left;
        destruct (no_search_stops lower iso w "update_todo" o) as [m ->];
        [tauto | intros q; rewrite E; discriminate | now eexists].
    - left. destruct (no_args_stops lower iso w "update_todo") as [m ->];
        [tauto | now eexists]. }
  left. split.
  - simpl. intros [H|[H|[H|[H|[]]]]]; congruence.
  - now apply undeclared_unknown.
Qed.

(** X1. The dispatcher and the declarations agree: a tool call is answered
    with the unknown-tool result exactly when its name is not one of the
    declared tools, and then nothing leaves the bridge. *)
Theorem unknown_tool_iff_undeclared :
  forall (toLowerCase : string -> string) (toISOString : Z -> string)
         (w : World) (call : FunctionCall),
    let r := handleToolCall toLowerCase toISOString w call in
    (Js.outcome r = Js.Normal UnknownTool
     <-> ~ In (name call) (map fst toolDefinitions))
    /\ (Js.outcome r = Js.Normal UnknownTool -> Js.trace r = []).
Proof.
  intros lower iso w [n a] r. cbn [name].
  destruct (handleToolCall_cases lower iso w n a)
    as [[-> E]|[[N E]|[HIn [[m E]|(c & done & E)]]]]; fold r in E;
    rewrite E; cbn [Js.outcome Js.trace fst snd].
  - split; [|discriminate]. split; [discriminate|].
    intros N. elim N. simpl. tauto.
  - split; [tauto | reflexivity].
  - split; [|discriminate]. split; [discriminate|].
    intros N. elim N. simpl in *. tauto.
  - assert (D : Js.outcome (after_call w c done) <> Js.Normal UnknownTool)
      by (unfold after_call; destruct (crud w c); discriminate).
    split; [|intros H; now elim D]. split; [intros H; now elim D|].
    intros N. elim N. simpl in *. tauto.
Qed.

(** X2. Whatever the tool and the arguments, a tool call makes at most one
    CRUD call; the refresh callback runs exactly when that call was
    accepted, right after it; and the result says "success" only then. *)
Theorem refresh_only_after_success :
  forall (toLowerCase : string -> string) (toISOString : Z -> string)
         (w : World) (call : FunctionCall),
    refresh_follows_success w (handleToolCall toLowerCase toISOString w call).
Proof.
  intros lower iso w [n a].
  destruct (handleToolCall_cases lower iso w n a)
    as [[-> E]|[[N E]|[HIn [[m E]|(c & done & E)]]]]; rewrite E.
  - left. split; [reflexivity|]. eexists. split; [reflexivity | discriminate].
  - left. split; [reflexivity|]. eexists. split; [reflexivity | discriminate].
  - apply silent_error_sequenced.
  - apply after_call_sequenced.
Qed.

Lemma unknown_tool_iff_undeclared_witness :
  Js.outcome (handleToolCall Js.lower_string stamp example_world
                (mkCall "list_todos" None))
  = Js.Normal UnknownTool.
Proof.
  apply (unknown_tool_iff_undeclared Js.lower_string stamp example_world
           (mkCall "list_todos" None)).
  simpl. intros [H|[H|[H|[H|[]]]]]; discriminate.
Defined.

(** X3. The required parameters are enforced only where the handler reads
    through them. A delete or update call without arguments, or whose
    search string is missing or not a string, ends in an error result
    before any CRUD call. A create call without a title is not stopped: the
    CRUD layer is called with an undefined title and, when it accepts, the
    message names the task "undefined". *)
Theorem required_parameters :
  forall (toLowerCase : string -> string) (toISOString : Z -> string)
         (w : World),
    (forall tool a,
        tool = "delete_todo" \/ tool = "update_todo" ->
        no_search_string a ->
        exists m,
          handleToolCall toLowerCase toISOString w (mkCall tool a)
          = ([], Js.Normal (Status "error" (Js.Str m))))
    /\ (forall o,
           Js.get o "title" = Js.Undefined ->
           exists description priority due_date rest,
             Js.trace (handleToolCall toLowerCase toISOString w
                         (mkCall "create_todo" (Some o)))
             = Api (createTodo Js.Undefined description priority due_date)
                 :: rest
             /\ (crud w (createTodo Js.Undefined description priority due_date)
                 = None ->
                 Js.outcome (handleToolCall toLowerCase toISOString w
                               (mkCall "create_todo" (Some o)))
                 = Js.Normal
                     (Status "success"
                        (Js.Str ("Created task " ++ quoted "undefined"))))).
Proof.
  intros lower iso w. split.
  - intros tool [o|] Ht Hs.
    + now apply no_search_stops.
    + apply no_args_stops. tauto.
  - intros o Ho. rewrite create_resolution, Ho.
    match goal with
    | |- context [after_call w ?c ?d] =>
        destruct (after_call_trace w c d) as [rest E]
    end.
    eexists _, _, _, rest. split; [exact E|].
    intros Hc. unfold after_call. rewrite Hc. reflexivity.
Qed.

Lemma required_parameters_witness :
  (exists m,
      handleToolCall Js.lower_string stamp example_world
        (mkCall "delete_todo" (Some [("search_title", Js.Num false "7")]))
      = ([], Js.Normal (Status "error" (Js.Str m))))
  /\ Js.outcome (handleToolCall Js.lower_string stamp example_world
                   (mkCall "create_todo" (Some [])))
     = Js.Normal (Status "success"
                    (Js.Str ("Created task " ++ quoted "undefined"))).
Proof.
  destruct (required_parameters Js.lower_string stamp example_world)
    as [Hs Hc].
  split.
  - apply Hs; [tauto|]. intros q. discriminate.
  - destruct (Hc [] eq_refl) as (d & p & due & rest & Ht & Ho).
    injection Ht as <- <- <- _. apply Ho. reflexivity.
Defined.

Lemma includes_empty (s : string) : Js.includes s EmptyString = true.
Proof. apply includes_prefix. now destruct s. Qed.

Lemma filter_all {A} (f : A -> bool) (l : list A) :
  (forall a, f a = true) -> filter f l = l.
Proof.
  intros Hf. induction l as [|a l IH]; simpl; [reflexivity|].
  now rewrite Hf, IH.
Qed.

(** X4. An empty search string matches every task of the mirror. So a
    delete or update with an empty search string acts on the task when the
    mirror holds exactly one, asks to be more specific (listing every
    title) when it holds several, and finds nothing when it is empty. *)
Theorem empty_search_matches_all :
  forall (toLowerCase : string -> string) (toISOString : Z -> string)
         (w : World) (o : Js.object),
    toLowerCase EmptyString = EmptyString ->
    Js.get o "search_title" = Js.Str EmptyString ->
    handleToolCall toLowerCase toISOString w (mkCall "delete_todo" (Some o))
    = match todosRef w with
      | [] => ([], Js.Normal no_match)
      | [t] => after_call w (deleteTodo (Js.Str (id t)))
                 ("Deleted task " ++ quoted (title t))
      | ts => ([], Js.Normal (several (map title ts)
                                ". Please be more specific."))
      end
    /\ handleToolCall toLowerCase toISOString w
         (mkCall "update_todo" (Some o))
       = match todosRef w with
         | [] => ([], Js.Normal no_match)
         | [t] => after_call w (update_of o t)
                    ("Updated task " ++ quoted (title t))
         | ts => ([], Js.Normal (several (map title ts) "."))
         end.
Proof.
  intros lower iso w o Hl Hq.
  assert (E : matching lower w (lower EmptyString) = todosRef w).
  { unfold matching. rewrite Hl. apply filter_all.
    intros t. apply includes_empty. }
  rewrite (delete_resolution lower iso w o _ Hq),
    (update_resolution lower iso w o _ Hq), E.
  split; reflexivity.
Qed.

Lemma empty_search_matches_all_witness :
  handleToolCall Js.lower_string stamp example_world (search "delete_todo" EmptyString)
  = ([], Js.Normal (several ["Buy Milk"; "Buy Bread"]
                      ". Please be more specific.")).
Proof.
  apply (empty_search_matches_all Js.lower_string stamp example_world
           [("search_title", Js.Str EmptyString)] eq_refl eq_refl).
Defined.

Lemma handleToolCall_returns lower iso w call :
  exists r, Js.outcome (handleToolCall lower iso w call) = Js.Normal r.
Proof.
  destruct (handleToolCall_body_fail_fast lower iso w call)
    as (body & h & -> & _ & Hh).
  apply try_catch_returns. intros e. rewrite Hh. now eexists.
Qed.

Lemma responses_app (a b : list LiveEffect) :
  responses (a ++ b) = (responses a ++ responses b)%list.
Proof.
  induction a as [|e a IH]; [reflexivity|].
  destruct e; simpl; now rewrite IH.
Qed.

Lemma responses_from_bridge (t : list Effect) :
  responses (map FromBridge t) = [].
Proof. induction t as [|e t IH]; [reflexivity | exact IH]. Qed.

(** X5. Every function call of a [toolCall] message is answered exactly
    once, in the order of the message and under its own id and name,
    whatever the calls ask for and however the CRUD layer answers: a call
    that fails does not leave the later ones unanswered. *)
Theorem every_call_answered :
  forall (toLowerCase : string -> string) (toISOString : Z -> string)
         (worlds : nat -> World) (k : nat) (calls : list ToolCall),
    let r := answer_calls toLowerCase toISOString worlds k calls in
    Js.outcome r = Js.Normal tt
    /\ responses (Js.trace r) = map (fun c => (fc_id c, name (fc c))) calls.
Proof.
  intros lower iso worlds k calls. revert k.
  induction calls as [|c calls IH]; intros k; [now split|].
  cbn [answer_calls map].
  destruct (handleToolCall_returns lower iso (worlds k) (fc c)) as [res Hres].
  destruct (handleToolCall lower iso (worlds k) (fc c)) as [t o].
  simpl in Hres. subst o.
  destruct (IH (S k)) as [Ho Ht].
  destruct (answer_calls lower iso worlds (S k) calls) as [t' o'].
  simpl in Ho, Ht. subst o'.
  unfold from_bridge. cbn. split; [reflexivity|].
  rewrite responses_app, responses_from_bridge. cbn. now rewrite Ht.
Qed.

(** X6. An action of the backend makes at most one CRUD call and never
    throws: an accepted call is followed by the refresh, a rejected one by
    one line on the console and no refresh; a request without data is
    logged before any call; an action that is not create, delete or update
    does nothing. *)
Theorem action_sequencing :
  forall (w : World) (action : string) (data : option Js.object),
    action_sequenced w (handleAction w action data)
    /\ (action <> "create_todo" -> action <> "delete_todo" ->
        action <> "update_todo" ->
        handleAction w action data = ([], Js.Normal tt))
    /\ (data = None ->
        In action ["create_todo"; "delete_todo"; "update_todo"] ->
        exists e, handleAction w action data = ([ConsoleError e], Js.Normal tt)).
Proof.
  intros w action data. split; [|split].
  - unfold handleAction, action_sequenced.
    destruct (action =? "create_todo")%string;
      [|destruct (action =? "delete_todo")%string;
        [|destruct (action =? "update_todo")%string]];
      destruct data as [o|]; unfold api; simpl;
      try (destruct (crud w _) eqn:E; simpl);
      (split; [reflexivity|]);
      first [ now left
            | right; left; now eexists
            | right; right; left; eexists; split; [reflexivity | eassumption]
            | right; right; right; eexists _, _; split;
              [reflexivity | eassumption] ].
  - intros N1 N2 N3. unfold handleAction.
    apply String.eqb_neq in N1, N2, N3. now rewrite N1, N2, N3.
  - intros -> [<-|[<-|[<-|[]]]]; now eexists.
Qed.

Lemma action_sequencing_witness :
  handleAction example_world "archive_todo" (Some [("id", Js.Str "1")])
  = ([], Js.Normal tt)
  /\ exists e, handleAction example_world "delete_todo" None
               = ([ConsoleError e], Js.Normal tt).
Proof.
  destruct (action_sequencing example_world "archive_todo"
              (Some [("id", Js.Str "1")])) as (_ & H & _).
  destruct (action_sequencing example_world "delete_todo" None) as (_ & _ & H').
  split.
  - apply H; discriminate.
  - apply H'; [reflexivity | simpl; tauto].
Defined.

(* ------------------------------------------------------------------ *)
(** ** The audio codec: what the wire form keeps *)

(** X7. Two chunks have the same wire string exactly when they have the
    same 16-bit samples: the byte packing and the Base64 wrapping lose
    nothing, all the loss is in the quantization. *)
Theorem encode_keeps_samples :
  forall (x y : list float),
    @encode unit x = @encode unit y <-> map pcm16 x = map pcm16 y.
Proof.
  intros x y. rewrite !encode_returns. split.
  - intros E. injection E as E.
    apply (f_equal unbase64) in E.
    rewrite !unbase64_base64 in E by apply buffer_bytes.
    injection E as E. apply (f_equal int16s) in E.
    rewrite !int16s_buffer in E; trivial;
      apply Forall_forall; intros v Hv;
      apply in_map_iff in Hv as (xi & <- & _); apply pcm16_int16.
  - now intros ->.
Qed.

Lemma encode_keeps_samples_witness :
  map pcm16 [Finite (3 # 2)] = map pcm16 [PosInf].
Proof.
  apply (encode_keeps_samples [Finite (3 # 2)] [PosInf]). reflexivity.
Defined.

Lemma clamped_finite (q : Q) :
  exists c,
    clamped (Finite q) = Some c
    /\ (((q <= -1)%Q /\ (c == -1)%Q)
        \/ ((-1 <= q <= 1)%Q /\ (c == q)%Q)
        \/ ((1 <= q)%Q /\ (c == 1)%Q)).
Proof.
  unfold clamped, clamp. simpl.
  destruct (Qle_bool_cases 1 q) as [[-> H1]|[-> H1]].
  - destruct (Qle_bool_cases (-1) 1) as [[-> H2]|[-> H2]]; eexists;
      (split; [reflexivity|]); right; right; split; lra.
  - destruct (Qle_bool_cases (-1) q) as [[-> H2]|[-> H2]]; eexists;
      (split; [reflexivity|]).
    + right. left. split; lra.
    + left. split; lra.
Qed.

Lemma pcm16_le (p q : Q) :
  (p <= q)%Q -> (pcm16 (Finite p) <= pcm16 (Finite q))%Z.
Proof.
  intros Hpq.
  destruct (clamped_finite p) as (c1 & Hc1 & Hp).
  destruct (clamped_finite q) as (c2 & Hc2 & Hq).
  assert (Hc : (c1 <= c2)%Q) by
    (destruct Hp as [[? ?]|[[[? ?] ?]|[? ?]]];
     destruct Hq as [[? ?]|[[[? ?] ?]|[? ?]]]; lra).
  destruct (clamped_range _ _ Hc1) as [[L1 U1] _].
  destruct (clamped_range _ _ Hc2) as [[L2 U2] _].
  destruct (pcm16_clamped _ _ Hc1) as [N1 P1].
  destruct (pcm16_clamped _ _ Hc2) as [N2 P2].
  change (inject_Z 32768) with 32768%Q in *.
  change (inject_Z 32767) with 32767%Q in *.
  destruct (Qlt_le_dec c2 0) as [Hn2|Hp2].
  - assert (Hn1 : (c1 < 0)%Q) by lra.
    destruct (N1 Hn1) as [-> _]. destruct (N2 Hn2) as [-> _].
    apply Qceiling_resp_le. lra.
  - destruct (Qlt_le_dec c1 0) as [Hn1|Hp1].
    + destruct (N1 Hn1) as [E1 _]. destruct (P2 Hp2) as [E2 _].
      destruct (ceiling_scaled c1 L1 Hn1) as [[_ H1] _].
      destruct (floor_scaled c2 Hp2 U2) as [[H2 _] _].
      change (inject_Z 32768) with 32768%Q in *.
      change (inject_Z 32767) with 32767%Q in *.
      rewrite E1, E2. lia.
    + destruct (P1 Hp1) as [-> _]. destruct (P2 Hp2) as [-> _].
      apply Qfloor_resp_le. lra.
Qed.

(** X8. The quantization keeps the order of the samples: a larger sample
    never gets a smaller 16-bit value, the infinities included. *)
Theorem pcm16_monotone :
  forall p q : Q,
    (p <= q)%Q ->
    (pcm16 NegInf <= pcm16 (Finite p) <= pcm16 (Finite q))%Z
    /\ (pcm16 (Finite q) <= pcm16 PosInf)%Z.
Proof.
  intros p q Hpq.
  pose proof (pcm16_int16 (Finite p)) as Rp.
  pose proof (pcm16_int16 (Finite q)) as Rq.
  pose proof (pcm16_le p q Hpq) as Hle.
  unfold is_int16 in Rp, Rq.
  change (pcm16 NegInf) with (-32768)%Z. change (pcm16 PosInf) with 32767%Z.
  lia.
Qed.

Lemma pcm16_monotone_witness :
  (pcm16 (Finite (1 # 3)) <= pcm16 (Finite (1 # 2)))%Z.
Proof.
  apply (pcm16_monotone (1 # 3) (1 # 2)). vm_compute. discriminate.
Defined.

(** X9. Samples at or beyond full scale saturate: from 1 on they are stored
    as 32767, down from -1 as -32768. Samples closer to zero than one step
    of their side (above -1/32768, below 1/32767) are stored as silence. *)
Theorem pcm16_saturates_and_rests :
  forall q : Q,
    ((1 <= q)%Q -> pcm16 (Finite q) = 32767%Z)
    /\ ((q <= -1)%Q -> pcm16 (Finite q) = (-32768)%Z)
    /\ ((-1 # 32768 < q)%Q -> (q < 1 # 32767)%Q -> pcm16 (Finite q) = 0%Z).
Proof.
  intros q.
  pose proof (pcm16_int16 (Finite q)) as R. unfold is_int16 in R.
  split; [|split].
  - intros H. pose proof (pcm16_le 1 q H) as L.
    change (pcm16 (Finite 1)) with 32767%Z in L. lia.
  - intros H. pose proof (pcm16_le q (-1) H) as L.
    change (pcm16 (Finite (-1))) with (-32768)%Z in L. lia.
  - intros Hlo Hhi.
    destruct (clamped_finite q) as (c & Hc & Hq).
    assert (E : (c == q)%Q) by
      (destruct Hq as [[? ?]|[[[? ?] ?]|[? ?]]]; lra).
    destruct (pcm16_clamped _ _ Hc) as [N P].
    change (inject_Z 32768) with 32768%Q in *.
    change (inject_Z 32767) with 32767%Q in *.
    destruct (Qlt_le_dec c 0) as [Hn|Hp].
    + destruct (N Hn) as [-> _].
      pose proof (Qle_ceiling (c * 32768)) as H1.
      pose proof (Qceiling_lt (c * 32768)) as H2.
      set (v := Qceiling (c * 32768)) in *. clearbody v.
      unfold Z.sub in H2. rewrite inject_Z_plus, inject_Z_opp in H2.
      change (inject_Z 1) with 1%Q in H2.
      assert (A : (inject_Z (-1) < inject_Z v)%Q)
        by (change (inject_Z (-1)) with (-1)%Q; lra).
      assert (B : (inject_Z v < inject_Z 1)%Q)
        by (change (inject_Z 1) with 1%Q; lra).
      rewrite <- Zlt_Qlt in A, B. lia.
    + destruct (P Hp) as [-> _].
      pose proof (Qfloor_le (c * 32767)) as H1.
      pose proof (Qlt_floor (c * 32767)) as H2.
      set (v := Qfloor (c * 32767)) in *. clearbody v.
      rewrite inject_Z_plus in H2. change (inject_Z 1) with 1%Q in H2.
      assert (A : (inject_Z (-1) < inject_Z v)%Q)
        by (change (inject_Z (-1)) with (-1)%Q; lra).
      assert (B : (inject_Z v < inject_Z 1)%Q)
        by (change (inject_Z 1) with 1%Q; lra).
      rewrite <- Zlt_Qlt in A, B. lia.
Qed.

Lemma pcm16_saturates_and_rests_witness :
  pcm16 (Finite (5 # 2)) = 32767%Z
  /\ pcm16 (Finite (-7 # 3)) = (-32768)%Z
  /\ pcm16 (Finite (1 # 40000)) = 0%Z.
Proof.
  split; [|split].
  - apply (pcm16_saturates_and_rests (5 # 2)). vm_compute. discriminate.
  - apply (pcm16_saturates_and_rests (-7 # 3)). vm_compute. discriminate.
  - apply (pcm16_saturates_and_rests (1 # 40000)); reflexivity.
Defined.

(* ------------------------------------------------------------------ *)
(** ** Playback: how the handlers compose *)

(** X10. After an interruption the schedule starts afresh: the next buffer
    is started at the clock time of its arrival, wherever the play head
    stood before and whatever was in flight, and it is then the only source
    in flight. *)
Theorem playback_resumes_at_clock :
  forall (T : Type) (clock : Clock T) (s : Session T) (now d : T),
    is_set (outputContextRef s) = true ->
    leb zero now = true ->
    let r := enqueue now d (state (interrupt s)) in
    calls r = [SourceStart (created s) now d]
    /\ nextStartTimeRef (state r) = add now d
    /\ audioSourcesRef (state r) = [mkSource (created s) true].
Proof.
  intros T clock s now d Ho Hn r. unfold r.
  destruct (outputContextRef s) as [c|] eqn:Eo; [|discriminate].
  rewrite interrupt_result. unfold state. cbn [snd].
  rewrite enqueue_result.
  unfold calls, enqueued, later. cbn. rewrite Eo, Hn. cbn.
  now repeat split.
Qed.

Lemma playback_resumes_at_clock_witness :
  calls (enqueue 7%Z 2%Z (state (interrupt replying)))
  = [SourceStart 1 7%Z 2%Z].
Proof.
  apply (playback_resumes_at_clock Z Clock_Z replying 7%Z 2%Z); reflexivity.
Defined.

Section Bursts.

Context {T : Type} `{Clock T} `{!ClockLaws T}.


End Bursts.



(** X12. Stopping the session does not move the play head, and neither
    does either part of the SDK component's function taken alone; only an
    interruption resets it. So the first buffer scheduled after a stop and
    a new output graph starts at the later of the old play head and the
    clock of the new graph: at the old play head when the clock has not
    reached it. *)
Theorem play_head_survives_stop :
  forall (T : Type) (clock : Clock T) (s : Session T) (ctx : AudioContext)
         (now d : T),
    reachable s ->
    nextStartTimeRef (state (stopSession s)) = nextStartTimeRef s
    /\ nextStartTimeRef (state (Live.stopSession s)) = nextStartTimeRef s
    /\ nextStartTimeRef (state (Live.stopSession_begin s)) = nextStartTimeRef s
    /\ (forall (promise : LiveSession) (s' : Session T),
           nextStartTimeRef (state (Live.stopSession_resume promise s'))
           = nextStartTimeRef s')
    /\ (let r := enqueue now d
                   (set_outputContextRef (Some ctx) (state (stopSession s))) in
        calls r
        = [SourceStart (created s) (later (nextStartTimeRef s) now) d]
        /\ (leb (nextStartTimeRef s) now = false ->
            calls r = [SourceStart (created s) (nextStartTimeRef s) d])).
Proof.
  intros T clock s ctx now d Hs. apply reachable_started in Hs.
  rewrite (stopSession_result s Hs), (live_stopSession_result s Hs),
    (live_begin_result s Hs).
  unfold state. cbn [snd]. split; [reflexivity|]. split; [reflexivity|].
  split; [reflexivity|].
  split; [intros promise s'; now rewrite live_resume_result|].
  rewrite enqueue_result. cbn. split; [reflexivity|].
  unfold later. now intros ->.
Qed.

Lemma play_head_survives_stop_witness :
  calls (enqueue 0%Z 3%Z
           (set_outputContextRef (Some (mkContext 9))
              (state (stopSession replying))))
  = [SourceStart 1 5%Z 3%Z].
Proof.
  assert (R : reachable replying).
  { apply reach_decoded. now apply reach_other with mounted; [constructor|]. }
  destruct (play_head_survives_stop Z Clock_Z replying (mkContext 9) 0%Z 3%Z R)
    as (_ & _ & _ & _ & _ & H).
  apply H. reflexivity.
Defined.

(* ------------------------------------------------------------------ *)
(** ** The address of the voice endpoint *)

Lemma drop_append (p s : string) : drop (String.length p) (p ++ s) = s.
Proof. induction p as [|c p IH]; [now destruct s | exact IH]. Qed.

Lemma prefix_weaken (p q s : string) :
  String.prefix (p ++ q) s = true -> String.prefix p s = true.
Proof.
  intros H. destruct (prefix_split _ _ H) as [b ->].
  rewrite string_app_assoc. apply prefix_append.
Qed.

(** X13. The voice endpoint follows the REST address: for an "https://"
    address the socket address is "wss://" with the same host, for an
    "http://" address it is "ws://" with the same host, and without a
    configured address (or with an empty one) it is the local development
    one. An address that does not begin with "http" is taken as a host and
    reached over "ws://". *)
Theorem websocket_url_follows_rest_scheme :
  forall host : string,
    getWebSocketUrl (Some ("https://" ++ host))
    = "wss://" ++ host ++ "/api/ai/voice/stream"
    /\ getWebSocketUrl (Some ("http://" ++ host))
       = "ws://" ++ host ++ "/api/ai/voice/stream"
    /\ getWebSocketUrl None = "ws://localhost:8000/api/ai/voice/stream"
    /\ getWebSocketUrl (Some EmptyString) = getWebSocketUrl None
    /\ (host <> EmptyString -> startsWith host "http" = false ->
        getWebSocketUrl (Some host)
        = "ws://" ++ host ++ "/api/ai/voice/stream").
Proof.
  intros host. split; [|split; [|split; [reflexivity|split; [reflexivity|]]]].
  - assert (E1 : startsWith ("https://" ++ host) "https" = true)
      by apply (prefix_append "https" ("://" ++ host)).
    assert (E2 : startsWith ("https://" ++ host) "https://" = true)
      by apply prefix_append.
    unfold getWebSocketUrl.
    change (base_url (Some ("https://" ++ host))) with ("https://" ++ host).
    unfold strip_scheme. rewrite E1, E2.
    change 8%nat with (String.length "https://"). now rewrite drop_append.
  - assert (E1 : startsWith ("http://" ++ host) "https" = false)
      by reflexivity.
    assert (E2 : startsWith ("http://" ++ host) "https://" = false)
      by reflexivity.
    assert (E3 : startsWith ("http://" ++ host) "http://" = true)
      by apply prefix_append.
    unfold getWebSocketUrl.
    change (base_url (Some ("http://" ++ host))) with ("http://" ++ host).
    unfold strip_scheme. rewrite E1, E2, E3.
    change 7%nat with (String.length "http://"). now rewrite drop_append.
  - intros Hne Hh. unfold getWebSocketUrl, base_url, strip_scheme.
    destruct host as [|c host]; [now elim Hne|].
    assert (P : forall q, startsWith (String c host) ("http" ++ q) = false).
    { intros q. unfold startsWith in *.
      destruct (String.prefix ("http" ++ q) (String c host)) eqn:E;
        [|reflexivity].
      apply prefix_weaken in E. congruence. }
    pose proof (P "s") as P1. change ("http" ++ "s") with "https" in P1.
    pose proof (P "s://") as P2. change ("http" ++ "s://") with "https://" in P2.
    pose proof (P "://") as P3. change ("http" ++ "://") with "http://" in P3.
    now rewrite P1, P2, P3.
Qed.

Lemma websocket_url_follows_rest_scheme_witness :
  getWebSocketUrl (Some "api.example.org")
  = "ws://api.example.org/api/ai/voice/stream".
Proof.
  apply (websocket_url_follows_rest_scheme "api.example.org");
    [discriminate | reflexivity].
Defined.

(* ------------------------------------------------------------------ *)
(** ** The REST client *)

Lemma msgs_validation (messages : list string) :
  Rest.msgs
    (map (fun m => Json.Obj [("loc", Json.Arr []);
                             ("msg", Json.Str m);
                             ("type", Json.Str "value_error")]) messages)
  = Js.Normal (map (fun m => Some (Json.Str m)) messages).
Proof.
  induction messages as [|m messages IH]; [reflexivity|].
  cbn [map Rest.msgs]. rewrite IH. reflexivity.
Qed.

Lemma error_message_validation (messages : list string) :
  Rest.error_message (validation_errors messages)
  = Js.Normal (String.concat ", " messages).
Proof.
  unfold Rest.error_message, validation_errors. cbn [Json.prop Json.lookup].
  cbn [String.eqb Ascii.eqb Bool.eqb]. cbv iota.
  rewrite msgs_validation, map_map. cbn [Json.joined Json.toString].
  now rewrite map_id.
Qed.

Lemma handleResponse_failed (response : Rest.Response) (b : Rest.Browser) :
  Rest.ok response = false ->
  exists e, fst (Rest.handleResponse response b) = Js.Throw e.
Proof.
  intros Hok. unfold Rest.handleResponse. rewrite Hok. cbn [negb].
  destruct (Rest.status response =? 401)%Z; [now eexists|].
  destruct (Rest.error_message _); now eexists.
Qed.

(** X14. A response that is not ok never comes back as a result: the call
    throws. For a 401 the token is removed, the hash emptied and the
    message is "Unauthorized", whatever the body says. Any other response,
    failed or not, leaves the token and the hash alone; a failed one
    without a JSON body is reported as an unexpected error, one with a list
    of validation details by their messages joined with commas; an ok
    response gives its body. *)
Theorem failed_response_never_returns :
  forall (response : Rest.Response) (b : Rest.Browser),
    (Rest.ok response = false ->
       (exists e, fst (Rest.handleResponse response b) = Js.Throw e)
       /\ (Rest.status response = 401%Z ->
           Rest.handleResponse response b
           = (Js.Throw (Js.mkError (Js.Str "Unauthorized")), logged_out))
       /\ (Rest.status response <> 401%Z ->
           snd (Rest.handleResponse response b) = b
           /\ (Rest.body response = None ->
               fst (Rest.handleResponse response b)
               = Js.Throw (Js.mkError
                             (Js.Str "An unexpected error occurred")))
           /\ (forall messages,
                  Rest.body response = Some (validation_errors messages) ->
                  fst (Rest.handleResponse response b)
                  = Js.Throw (Js.mkError
                                (Js.Str (String.concat ", " messages))))))
    /\ (Rest.ok response = true ->
        snd (Rest.handleResponse response b) = b
        /\ forall j, Rest.body response = Some j ->
                     fst (Rest.handleResponse response b) = Js.Normal j).
Proof.
  intros response b. split.
  - intros Hok. split; [now apply handleResponse_failed|].
    unfold Rest.handleResponse. rewrite Hok. cbn [negb]. split.
    + intros ->. reflexivity.
    + intros Hs. apply Z.eqb_neq in Hs. rewrite Hs. split; [|split].
      * destruct (Rest.error_message _); reflexivity.
      * intros ->. reflexivity.
      * intros messages ->. now rewrite error_message_validation.
  - intros Hok. unfold Rest.handleResponse. rewrite Hok. cbn [negb]. split.
    + destruct (Rest.body response); reflexivity.
    + intros j ->. reflexivity.
Qed.

Lemma failed_response_never_returns_witness :
  Rest.handleResponse
    (Rest.mkResponse false 422
       (Some (validation_errors ["title too short"; "bad date"])))
    (Rest.mkBrowser (Some "abc") "#/todos")
  = (Js.Throw (Js.mkError (Js.Str "title too short, bad date")),
     Rest.mkBrowser (Some "abc") "#/todos").
Proof.
  pose (r := Rest.mkResponse false 422
               (Some (validation_errors ["title too short"; "bad date"]))).
  pose (b := Rest.mkBrowser (Some "abc") "#/todos").
  destruct (failed_response_never_returns r b) as [H _].
  destruct (H eq_refl) as (_ & _ & H').
  destruct H' as (Hb & _ & Hm); [discriminate|].
  specialize (Hm _ eq_refl). fold r b.
  destruct (Rest.handleResponse r b) as [c b']. simpl in *. now subst.
Defined.

(** X15. A 401 logs the user out on every call of the client but the
    delete: after a 401 on login, registration, listing, creation or update
    the token is gone and the next request carries no Authorization header;
    a delete leaves the token where it is, whatever the server answers. *)
Theorem unauthorized_logs_out_except_delete :
  forall (BASE_URL : string) (b : Rest.Browser) (body : option Json.t)
         (username email password title description priority due_date
            id : string) (todo : Json.t),
    let fetch := fun _ : Rest.Request =>
                   Some (Rest.mkResponse false 401 body) in
    (forall call : Rest.Call Json.t,
        In call [Rest.getTodos BASE_URL fetch;
                 Rest.login BASE_URL fetch username password;
                 Rest.register BASE_URL fetch username email password;
                 Rest.createTodo BASE_URL fetch title description priority
                   due_date;
                 Rest.updateTodo BASE_URL fetch id todo] ->
        call b = (Js.Throw (Js.mkError (Js.Str "Unauthorized")), logged_out)
        /\ Rest.getAuthHeaders (snd (call b))
           = [("Content-Type", "application/json")])
    /\ (forall (answers : Rest.Request -> option Rest.Response),
           snd (Rest.deleteTodo BASE_URL answers id b) = b).
Proof.
  intros BASE_URL b body username email password title description priority
    due_date id todo fetch. split.
  - intros call HIn. simpl in HIn.
    destruct HIn as [<-|[<-|[<-|[<-|[<-|[]]]]]]; now split.
  - intros answers. unfold Rest.deleteTodo.
    destruct (answers _) as [response|]; [|reflexivity].
    destruct (negb (Rest.ok response)); [|reflexivity].
    destruct (Json.prop _ _) as [[detail|]|err]; reflexivity.
Qed.

Lemma unauthorized_logs_out_except_delete_witness :
  Rest.getTodos "http://localhost:8000"
    (fun _ => Some (Rest.mkResponse false 401 None))
    (Rest.mkBrowser (Some "abc") "#/todos")
  = (Js.Throw (Js.mkError (Js.Str "Unauthorized")), logged_out).
Proof.
  apply (unauthorized_logs_out_except_delete "http://localhost:8000"
           (Rest.mkBrowser (Some "abc") "#/todos") None
           "ann" "ann@example.org" "secret" "Buy Milk" EmptyString "low"
           "2026-01-01T10:00" "1" (Json.Obj [])).
  simpl. tauto.
Defined.

(* ------------------------------------------------------------------ *)
(** ** The task list view *)

Lemma substring_prefix (n : nat) (s : string) :
  exists rest, s = String.substring 0 n s ++ rest.
Proof.
  revert s. induction n as [|n IH]; intros [|c s].
  - now exists EmptyString.
  - now exists (String c s).
  - now exists EmptyString.
  - destruct (IH s) as [rest E]. exists rest. cbn. now rewrite <- E.
Qed.

Lemma substring_length (n : nat) (s : string) :
  String.length (String.substring 0 n s) = Nat.min n (String.length s).
Proof.
  revert s. induction n as [|n IH]; intros [|c s]; cbn; try reflexivity.
  now rewrite IH.
Qed.

Lemma substring_all (n : nat) (s : string) :
  String.length s <= n -> String.substring 0 n s = s.
Proof.
  revert s. induction n as [|n IH]; intros [|c s]; cbn; intros H;
    try reflexivity; try lia.
  rewrite IH; [reflexivity|lia].
Qed.

Lemma filter_other_ids (i : string) (l : list Todo) :
  (forall t, In t l -> id t <> i) ->
  filter (fun t => negb (id t =? i)%string) l = l.
Proof.
  intros H. induction l as [|t l IH]; [reflexivity|]. cbn [filter].
  destruct (String.eqb_spec (id t) i) as [E|_].
  - exfalso. now apply (H t); [left|].
  - cbn [negb]. rewrite IH; [reflexivity|]. intros u Hu. apply H. now right.
Qed.

(** X16. Confirming a deletion with nothing selected does nothing at all.
    With a task selected exactly one delete request is made, for its id,
    and the deleting flag is off again afterwards. When the request
    succeeds the tasks with that id, and only those, leave the list and the
    selection is cleared; when it fails the error is logged, the list is
    untouched and the task stays selected. *)
Theorem confirm_delete_outcome :
  forall (client : TodoList.Client) (v : TodoList.View),
    let r := TodoList.handleConfirmDelete client v in
    (TodoList.todoToDelete v = None -> r = ([], v))
    /\ (forall selected,
           TodoList.todoToDelete v = Some selected ->
           let c := TodoList.DeleteTodo (id selected) in
           TodoList.requests (fst r) = [c]
           /\ TodoList.isDeleting (snd r) = false
           /\ (forall u, TodoList.deleted client c = Js.Normal u ->
                  TodoList.logged (fst r) = []
                  /\ (forall t, In t (TodoList.todos (snd r))
                                <-> In t (TodoList.todos v)
                                    /\ id t <> id selected)
                  /\ TodoList.todoToDelete (snd r) = None)
           /\ (forall e, TodoList.deleted client c = Js.Throw e ->
                  TodoList.logged (fst r) = [e]
                  /\ TodoList.todos (snd r) = TodoList.todos v
                  /\ TodoList.todoToDelete (snd r) = Some selected)).
Proof.
  intros client v r. subst r. unfold TodoList.handleConfirmDelete. split.
  - now intros ->.
  - intros selected Hsel. rewrite Hsel. cbn zeta.
    destruct (TodoList.deleted client _) as [u|e] eqn:E.
    + split; [reflexivity|]. split; [reflexivity|]. split; [|discriminate].
      intros _ _. split; [reflexivity|]. split; [|reflexivity].
      intros t. cbn. rewrite filter_In.
      destruct (String.eqb_spec (id t) (id selected)) as [Ei|Ei]; cbn;
        intuition congruence.
    + split; [reflexivity|]. split; [reflexivity|]. split; [discriminate|].
      intros e' [= ->]. split; [reflexivity|]. split; [reflexivity|exact Hsel].
Qed.

Lemma confirm_delete_outcome_witness :
  TodoList.todos
    (snd (TodoList.handleConfirmDelete
            (TodoList.mkClient (Js.Normal []) (fun _ => Js.Normal buy_milk)
               (fun _ => Js.Throw (Js.mkError (Js.Str "Not found"))))
            (TodoList.askDelete buy_milk
               (TodoList.mkView [buy_milk; buy_bread] false EmptyString false
                  None None false EmptyString EmptyString "medium"
                  EmptyString false))))
  = [buy_milk; buy_bread].
Proof.
  pose (client := TodoList.mkClient (Js.Normal [])
                    (fun _ => Js.Normal buy_milk)
                    (fun _ => Js.Throw (Js.mkError (Js.Str "Not found")))).
  pose (v := TodoList.askDelete buy_milk
               (TodoList.mkView [buy_milk; buy_bread] false EmptyString false
                  None None false EmptyString EmptyString "medium"
                  EmptyString false)).
  destruct (confirm_delete_outcome client v) as [_ H].
  destruct (H buy_milk eq_refl) as (_ & _ & _ & Hfail).
  destruct (Hfail (Js.mkError (Js.Str "Not found")) eq_refl) as (_ & Ht & _).
  exact Ht.
Defined.

Lemma setSubmitting_twice (a b : bool) (v : TodoList.View) :
  TodoList.setSubmitting a (TodoList.setSubmitting b v)
  = TodoList.setSubmitting a v.
Proof. reflexivity. Qed.

(** X17. Submitting the task form makes exactly one request and leaves
    the submitting flag off. When the request fails the error is logged
    and nothing else changes: the list, the form and the open modal stay
    as they were. When it succeeds the modal is closed; a new task is put
    at the end of the list, and after an edit the list has the same
    length, the tasks carrying the returned id are replaced by the
    returned task and every other task stays in its place. *)
Theorem submit_outcome :
  forall (toISOString : Z -> string) (client : TodoList.Client) (now : Z)
         (v : TodoList.View),
    let r := TodoList.handleSubmit toISOString client now v in
    TodoList.submitting (snd r) = false
    /\ exists c,
        TodoList.requests (fst r) = [c]
        /\ (forall e, TodoList.returned client c = Js.Throw e ->
               TodoList.logged (fst r) = [e]
               /\ snd r = TodoList.setSubmitting false v)
        /\ (forall t', TodoList.returned client c = Js.Normal t' ->
               TodoList.logged (fst r) = []
               /\ TodoList.isModalOpen (snd r) = false
               /\ TodoList.editingTodo (snd r) = None
               /\ (TodoList.editingTodo v = None ->
                   TodoList.todos (snd r) = (TodoList.todos v ++ [t'])%list)
               /\ (TodoList.editingTodo v <> None ->
                   List.length (TodoList.todos (snd r))
                   = List.length (TodoList.todos v)
                   /\ forall i t,
                       nth_error (TodoList.todos v) i = Some t ->
                       (id t = id t' ->
                        nth_error (TodoList.todos (snd r)) i = Some t')
                       /\ (id t <> id t' ->
                           nth_error (TodoList.todos (snd r)) i = Some t))).
Proof.
  intros toISOString client now v r. subst r.
  unfold TodoList.handleSubmit. cbn zeta.
  change (TodoList.editingTodo (TodoList.setSubmitting true v))
    with (TodoList.editingTodo v).
  destruct (TodoList.editingTodo v) as [editing|] eqn:Ed.
  - match goal with
    | |- context [TodoList.returned client ?c] =>
        destruct (TodoList.returned client c) as [updated|e] eqn:E;
        (split; [reflexivity|]); exists c
    end.
    + split; [reflexivity|]. split; [now rewrite E|].
      intros t'. rewrite E. intros [= ->].
      split; [reflexivity|]. split; [reflexivity|]. split; [reflexivity|].
      split; [discriminate|]. intros _. cbn. split; [apply length_map|].
      intros i t Hi. rewrite nth_error_map, Hi. cbn.
      destruct (String.eqb_spec (id t) (id t')); split; congruence.
    + split; [reflexivity|]. split; [|now rewrite E].
      intros e'. rewrite E. intros [= ->]. now split.
  - match goal with
    | |- context [TodoList.returned client ?c] =>
        destruct (TodoList.returned client c) as [newTodo|e] eqn:E;
        (split; [reflexivity|]); exists c
    end.
    + split; [reflexivity|]. split; [now rewrite E|].
      intros t'. rewrite E. intros [= ->].
      split; [reflexivity|]. split; [reflexivity|]. split; [reflexivity|].
      split; [reflexivity|]. intros H. now destruct H.
    + split; [reflexivity|]. split; [|now rewrite E].
      intros e'. rewrite E. intros [= ->]. now split.
Qed.

Lemma submit_outcome_witness :
  let client :=
    TodoList.mkClient (Js.Normal [])
      (fun _ => Js.Normal (mkTodo "1" "Buy Oat Milk" "2 litres"
                             "2026-01-01T10:00" "high"))
      (fun _ => Js.Normal tt) in
  let v :=
    TodoList.openModal (Some buy_milk) EmptyString
      (TodoList.mkView [buy_milk; buy_bread] false EmptyString false
         None None false EmptyString EmptyString "medium" EmptyString
         false) in
  exists c,
    TodoList.requests (fst (TodoList.handleSubmit stamp client 0 v)) = [c]
    /\ TodoList.returned client c
       = Js.Normal (mkTodo "1" "Buy Oat Milk" "2 litres"
                      "2026-01-01T10:00" "high")
    /\ List.length
         (TodoList.todos (snd (TodoList.handleSubmit stamp client 0 v)))
       = 2.
Proof.
  intros client v.
  destruct (submit_outcome stamp client 0 v) as (_ & c & Hc & _ & Hok).
  exists c. split; [exact Hc|]. split; [reflexivity|].
  destruct (Hok _ eq_refl) as (_ & _ & _ & _ & Hedit).
  destruct Hedit as [Hlen _]; [discriminate|]. exact Hlen.
Defined.

(** X18. Creating a task through the form and then deleting it through
    the confirmation dialog gives back the list as it was, provided no
    task of the list already had the id the backend gave the new one. *)
Theorem create_then_delete :
  forall (toISOString : Z -> string) (client : TodoList.Client) (now : Z)
         (v : TodoList.View) (newTodo : Todo) (u : unit),
    TodoList.editingTodo v = None ->
    TodoList.returned client
      (TodoList.CreateTodo (TodoList.formTitle v) (TodoList.formDesc v)
         (TodoList.formPriority v)
         (TodoList.or_else (TodoList.formDueDate v)
            (toISOString (now + 3600000)%Z)))
    = Js.Normal newTodo ->
    TodoList.deleted client (TodoList.DeleteTodo (id newTodo))
    = Js.Normal u ->
    (forall t, In t (TodoList.todos v) -> id t <> id newTodo) ->
    let created := snd (TodoList.handleSubmit toISOString client now v) in
    In newTodo (TodoList.todos created)
    /\ TodoList.todos
         (snd (TodoList.handleConfirmDelete client
                 (TodoList.askDelete newTodo created)))
       = TodoList.todos v.
Proof.
  intros toISOString client now v newTodo u Hed Hret Hdel Hfresh created.
  subst created. unfold TodoList.handleSubmit. cbn zeta.
  change (TodoList.editingTodo (TodoList.setSubmitting true v))
    with (TodoList.editingTodo v).
  cbn in Hret. rewrite Hed. cbn. rewrite Hret. cbn [snd]. split.
  - cbn. apply in_or_app. right. now left.
  - unfold TodoList.handleConfirmDelete, TodoList.askDelete. cbn.
    cbn in Hdel. rewrite Hdel. cbn.
    rewrite filter_app, (filter_other_ids _ _ Hfresh). cbn.
    rewrite String.eqb_refl. cbn. apply app_nil_r.
Qed.

Lemma create_then_delete_witness :
  let client :=
    TodoList.mkClient (Js.Normal [])
      (fun _ => Js.Normal (mkTodo "3" "Call Ann" EmptyString
                             "2026-01-01T10:00" "low"))
      (fun _ => Js.Normal tt) in
  let v :=
    TodoList.mkView [buy_milk; buy_bread] false EmptyString true None None
      false "Call Ann" EmptyString "low" "2026-01-01T10:00" false in
  TodoList.todos
    (snd (TodoList.handleConfirmDelete client
            (TodoList.askDelete
               (mkTodo "3" "Call Ann" EmptyString "2026-01-01T10:00" "low")
               (snd (TodoList.handleSubmit stamp client 0 v)))))
  = [buy_milk; buy_bread].
Proof.
  intros client v.
  refine (proj2 (create_then_delete stamp client 0 v
                   (mkTodo "3" "Call Ann" EmptyString "2026-01-01T10:00"
                      "low") tt eq_refl eq_refl eq_refl _)).
  intros t [<-|[<-|[]]]; discriminate.
Defined.

(** X19. Opening a task for editing and saving it without touching the
    form still sends an update, for that task's id, with its title and
    description, with "medium" where it had no priority, and with a due
    date that is not always the stored one: a stored date of more than
    sixteen characters is cut to its first sixteen (the minutes), one of at
    most sixteen is sent as it is, and a task without a date gets the time
    one hour from now. *)
Theorem unchanged_edit_rewrites_due_date :
  forall (toISOString : Z -> string) (client : TodoList.Client) (now : Z)
         (v : TodoList.View) (t : Todo) (local_iso : string),
    let opened := TodoList.openModal (Some t) local_iso v in
    exists due,
      TodoList.requests
        (fst (TodoList.handleSubmit toISOString client now opened))
      = [TodoList.UpdateTodo (id t) (title t) (description t)
           (TodoList.or_else (priority t) "medium") due]
      /\ (due_date t = EmptyString ->
          due = toISOString (now + 3600000)%Z)
      /\ (16 < String.length (due_date t) ->
          String.length due = 16
          /\ due <> due_date t
          /\ exists rest, due_date t = due ++ rest)
      /\ (0 < String.length (due_date t) <= 16 -> due = due_date t).
Proof.
  intros toISOString client now v t local_iso opened.
  exists (TodoList.or_else (TodoList.toInputDate (due_date t))
            (toISOString (now + 3600000)%Z)).
  split.
  - subst opened. unfold TodoList.handleSubmit, TodoList.openModal. cbn.
    replace (TodoList.or_else (description t) EmptyString)
      with (description t) by now destruct (description t).
    now destruct (TodoList.returned client _).
  - assert (Hcut : due_date t <> EmptyString ->
              TodoList.or_else (TodoList.toInputDate (due_date t))
                (toISOString (now + 3600000)%Z)
              = String.substring 0 16 (due_date t)).
    { destruct (due_date t) as [|c s]; [congruence|]. reflexivity. }
    split; [now intros ->|]. split.
    + intros Hlen. rewrite Hcut by (intros E; rewrite E in Hlen; cbn in Hlen; lia).
      assert (L : String.length (String.substring 0 16 (due_date t)) = 16).
      { rewrite substring_length. lia. }
      split; [exact L|]. split; [|apply substring_prefix].
      intros E. rewrite E in L. lia.
    + intros Hlen. rewrite Hcut by (intros E; rewrite E in Hlen; cbn in Hlen; lia).
      apply substring_all. lia.
Qed.

Lemma unchanged_edit_rewrites_due_date_witness :
  TodoList.requests
    (fst (TodoList.handleSubmit stamp
            (TodoList.mkClient (Js.Normal []) (fun _ => Js.Normal buy_milk)
               (fun _ => Js.Normal tt))
            0
            (TodoList.openModal (Some buy_milk) EmptyString
               (TodoList.mkView [buy_milk; buy_bread] false EmptyString
                  false None None false EmptyString EmptyString "medium"
                  EmptyString false))))
  = [TodoList.UpdateTodo "1" "Buy Milk" "2% fat" "medium"
       "2026-01-01T00:00"].
Proof.
  pose (client := TodoList.mkClient (Js.Normal [])
                    (fun _ => Js.Normal buy_milk) (fun _ => Js.Normal tt)).
  pose (v := TodoList.mkView [buy_milk; buy_bread] false EmptyString false
               None None false EmptyString EmptyString "medium" EmptyString
               false).
  destruct (unchanged_edit_rewrites_due_date stamp client 0 v buy_milk
              EmptyString) as (due & Hreq & _ & Hcut & _).
  fold client v. rewrite Hreq. do 2 f_equal.
  assert (Hlong : 16 < String.length (due_date buy_milk)) by (cbn; lia).
  destruct (Hcut Hlong) as (Hlen & _ & rest & Hrest). clear - Hlen Hrest.
  cbn in Hrest.
  do 16 (destruct due as [|? due]; [discriminate|];
         cbn in Hrest; injection Hrest as <- Hrest).
  destruct due; [reflexivity|discriminate].
Defined.

(** X20. The search box shows exactly the tasks whose lowered title or
    lowered description contains the lowered search term. With an empty
    lowered term nothing is hidden, and whatever the voice
    assistant's title search finds for a term is among the tasks the search
    box shows for it. *)
Theorem search_box_filter :
  forall (toLowerCase : string -> string) (v : TodoList.View),
    let q := toLowerCase (TodoList.searchTerm v) in
    (forall t, In t (TodoList.filteredTodos toLowerCase v)
               <-> In t (TodoList.todos v)
                   /\ ((exists a b, toLowerCase (title t) = a ++ q ++ b)
                       \/ (exists a b,
                              toLowerCase (description t) = a ++ q ++ b)))
    /\ (q = EmptyString ->
        TodoList.filteredTodos toLowerCase v = TodoList.todos v)
    /\ (forall w, todosRef w = TodoList.todos v ->
                  incl (matching toLowerCase w q)
                    (TodoList.filteredTodos toLowerCase v)).
Proof.
  intros toLowerCase v q. unfold TodoList.filteredTodos. fold q.
  split; [|split].
  - intros t. rewrite filter_In, orb_true_iff, !includes_spec. reflexivity.
  - intros ->. apply filter_all. intros t. now rewrite includes_empty.
  - intros w Hw t. unfold matching. rewrite Hw, !filter_In.
    intros [Ht Hq]. split; [exact Ht|]. now rewrite Hq.
Qed.

Lemma search_box_filter_witness :
  incl (matching Js.lower_string example_world "milk")
    (TodoList.filteredTodos Js.lower_string
       (TodoList.mkView [buy_milk; buy_bread] false "Milk" false None None
          false EmptyString EmptyString "medium" EmptyString false)).
Proof.
  apply (search_box_filter Js.lower_string
           (TodoList.mkView [buy_milk; buy_bread] false "Milk" false None
              None false EmptyString EmptyString "medium" EmptyString false)).
  reflexivity.
Defined.

(* ------------------------------------------------------------------ *)
(** ** Signing in and out *)

Lemma or_fallback_truthy (a b : Js.value) :
  Js.truthy b = true -> Js.truthy (Js.or a b) = true.
Proof. unfold Js.or. now destruct (Js.truthy a) eqn:E. Qed.

Lemma sign_in_stores (BASE_URL : string)
      (fetch : Rest.Request -> option Rest.Response)
      (f : AuthForm.Form) (b b' : Rest.Browser) (u : unit) :
  AuthForm.sign_in BASE_URL fetch f b = (Js.Normal u, b') ->
  exists tok, Rest.token b' = Some tok.
Proof.
  unfold AuthForm.sign_in.
  destruct (Rest.login _ _ _ _ _) as [[response|e] b1]; [|discriminate].
  destruct (Json.prop _ _) as [access_token|e]; [|discriminate].
  intros [= _ <-]. now eexists.
Qed.

(** X21. Every submit of the sign-in form ends with the loading flag off
    and the typed username, e-mail and password kept. The form reports
    success exactly when it shows no error: on success the banner is empty
    and a token is stored; on every failure, also a registration whose
    automatic login fails, a non-empty message is shown. *)
Theorem auth_submit_reports :
  forall (BASE_URL : string) (fetch : Rest.Request -> option Rest.Response)
         (f : AuthForm.Form) (b : Rest.Browser),
    let r := AuthForm.handleSubmit BASE_URL fetch f b in
    let f' := fst (fst r) in
    AuthForm.loading f' = false
    /\ AuthForm.username f' = AuthForm.username f
    /\ AuthForm.email f' = AuthForm.email f
    /\ AuthForm.password f' = AuthForm.password f
    /\ (snd r = true <-> Js.truthy (AuthForm.error f') = false)
    /\ (snd r = true -> exists tok, Rest.token (snd (fst r)) = Some tok).
Proof.
  intros BASE_URL fetch f b r f'. subst f' r. unfold AuthForm.handleSubmit.
  cbn zeta. cbn [AuthForm.isLogin].
  destruct (AuthForm.isLogin f).
  - destruct (AuthForm.sign_in _ _ _ _) as [[u|e] b1] eqn:E; cbn.
    + do 4 (split; [reflexivity|]). split; [tauto|].
      intros _. exact (sign_in_stores _ _ _ _ _ _ E).
    + do 4 (split; [reflexivity|]).
      rewrite or_fallback_truthy by reflexivity.
      split; [split; discriminate|discriminate].
  - destruct (Rest.register _ _ _ _ _ _) as [[j|e] b1]; cbn.
    + destruct (AuthForm.sign_in _ _ _ _) as [[u|e] b2] eqn:E; cbn.
      * do 4 (split; [reflexivity|]). split; [tauto|].
        intros _. exact (sign_in_stores _ _ _ _ _ _ E).
      * do 4 (split; [reflexivity|]).
        split; [split; discriminate|discriminate].
    + do 4 (split; [reflexivity|]).
      rewrite or_fallback_truthy by reflexivity.
      split; [split; discriminate|discriminate].
Qed.

Lemma auth_submit_reports_witness :
  exists tok,
    Rest.token
      (snd (fst (AuthForm.handleSubmit "http://localhost:8000"
                   (fun _ =>
                      Some (Rest.mkResponse true 200
                              (Some (Json.Obj
                                       [("access_token", Json.Str "abc")]))))
                   (AuthForm.mkForm false "ann" "ann@example.org" "secret"
                      false (Js.Str EmptyString))
                   (Rest.mkBrowser None EmptyString))))
    = Some tok.
Proof.
  apply (auth_submit_reports "http://localhost:8000"
           (fun _ =>
              Some (Rest.mkResponse true 200
                      (Some (Json.Obj [("access_token", Json.Str "abc")]))))
           (AuthForm.mkForm false "ann" "ann@example.org" "secret" false
              (Js.Str EmptyString))
           (Rest.mkBrowser None EmptyString)).
  reflexivity.
Defined.

(** X22. A login that the server answers with 401 shows "Unauthorized",
    whatever detail the response carries, reports no success, and leaves
    the browser logged out with the hash emptied. *)
Theorem rejected_login_shows_unauthorized :
  forall (BASE_URL : string) (fetch : Rest.Request -> option Rest.Response)
         (f : AuthForm.Form) (b : Rest.Browser) (body : option Json.t),
    AuthForm.isLogin f = true ->
    (forall request, Rest.url request = BASE_URL ++ "/token" ->
                     fetch request
                     = Some (Rest.mkResponse false 401 body)) ->
    let r := AuthForm.handleSubmit BASE_URL fetch f b in
    AuthForm.error (fst (fst r)) = Js.Str "Unauthorized"
    /\ snd (fst r) = logged_out
    /\ snd r = false
    /\ App.mount (snd (fst r)) = false.
Proof.
  intros BASE_URL fetch f b body Hlogin Hfetch r. subst r.
  unfold AuthForm.handleSubmit. cbn zeta. cbn [AuthForm.isLogin].
  rewrite Hlogin. unfold AuthForm.sign_in, Rest.login, Rest.through.
  rewrite Hfetch by reflexivity. cbn. now repeat split.
Qed.

Lemma rejected_login_shows_unauthorized_witness :
  AuthForm.error
    (fst (fst (AuthForm.handleSubmit "http://localhost:8000"
                 (fun _ =>
                    Some (Rest.mkResponse false 401
                            (Some (Json.Obj
                                     [("detail",
                                       Json.Str "Incorrect password")]))))
                 (AuthForm.mkForm true "ann" EmptyString "secret" false
                    (Js.Str EmptyString))
                 (Rest.mkBrowser (Some "old") "#/todos"))))
  = Js.Str "Unauthorized".
Proof.
  apply (rejected_login_shows_unauthorized "http://localhost:8000"
           (fun _ =>
              Some (Rest.mkResponse false 401
                      (Some (Json.Obj
                               [("detail", Json.Str "Incorrect password")]))))
           (AuthForm.mkForm true "ann" EmptyString "secret" false
              (Js.Str EmptyString))
           (Rest.mkBrowser (Some "old") "#/todos")
           (Some (Json.Obj [("detail", Json.Str "Incorrect password")]))
           eq_refl (fun _ _ => eq_refl)).
Defined.

(** X23. From login to logout: when the server accepts a login and
    answers with a non-empty access token, the form reports success, the
    application finds the user authenticated when it next mounts, and the
    requests of the client carry "Bearer" followed by that token; after a
    logout the application finds nobody authenticated and the requests
    carry no Authorization header. *)
Theorem login_then_logout :
  forall (BASE_URL : string) (fetch : Rest.Request -> option Rest.Response)
         (f : AuthForm.Form) (b : Rest.Browser) (status : Z)
         (fields : list (string * Json.t)) (access_token : string),
    AuthForm.isLogin f = true ->
    (forall request, Rest.url request = BASE_URL ++ "/token" ->
                     fetch request
                     = Some (Rest.mkResponse true status
                               (Some (Json.Obj fields)))) ->
    Json.lookup fields "access_token" = Some (Json.Str access_token) ->
    access_token <> EmptyString ->
    let r := AuthForm.handleSubmit BASE_URL fetch f b in
    let b' := snd (fst r) in
    snd r = true
    /\ App.mount b' = true
    /\ Rest.getAuthHeaders b'
       = [("Authorization", "Bearer " ++ access_token);
          ("Content-Type", "application/json")]
    /\ snd (App.handleLogout b') = false
    /\ App.mount (fst (App.handleLogout b')) = false
    /\ Rest.getAuthHeaders (fst (App.handleLogout b'))
       = [("Content-Type", "application/json")].
Proof.
  intros BASE_URL fetch f b status fields access_token Hlogin Hfetch Htok
    Hne r b'. subst b' r.
  unfold AuthForm.handleSubmit. cbn zeta. cbn [AuthForm.isLogin].
  rewrite Hlogin. unfold AuthForm.sign_in, Rest.login, Rest.through.
  rewrite Hfetch by reflexivity. cbn. rewrite Htok. cbn.
  destruct access_token as [|c s]; [congruence|].
  now repeat split.
Qed.

Lemma login_then_logout_witness :
  Rest.getAuthHeaders
    (snd (fst (AuthForm.handleSubmit "http://localhost:8000"
                 (fun _ =>
                    Some (Rest.mkResponse true 200
                            (Some (Json.Obj
                                     [("access_token", Json.Str "abc");
                                      ("token_type", Json.Str "bearer")]))))
                 (AuthForm.mkForm true "ann" EmptyString "secret" false
                    (Js.Str EmptyString))
                 (Rest.mkBrowser None EmptyString))))
  = [("Authorization", "Bearer abc"); ("Content-Type", "application/json")].
Proof.
  refine (proj1 (proj2 (proj2
    (login_then_logout "http://localhost:8000"
       (fun _ =>
          Some (Rest.mkResponse true 200
                  (Some (Json.Obj
                           [("access_token", Json.Str "abc");
                            ("token_type", Json.Str "bearer")]))))
       (AuthForm.mkForm true "ann" EmptyString "secret" false
          (Js.Str EmptyString))
       (Rest.mkBrowser None EmptyString) 200
       [("access_token", Json.Str "abc"); ("token_type", Json.Str "bearer")]
       "abc" eq_refl (fun _ _ => eq_refl) eq_refl _)))).
  discriminate.
Defined.

(* ------------------------------------------------------------------ *)
(** ** Stopping the session, component by component *)

(** X24. [stopSession] of the WebSocket component is idempotent. In every
    state the component goes through it returns without an exception and
    leaves the socket reference and the two audio contexts null, the
    in-flight set empty and the transport disconnected, whatever they were
    before; it closes the socket and each context once and stops each
    source once. Called again in the state it left, it makes no outside
    call at all and leaves that state as it is. *)
Theorem websocket_stop_is_idempotent :
  forall (T : Type) (clock : Clock T) (s : Session T),
    reachable s ->
    let r := stopSession s in
    completed r = Js.Normal tt
    /\ wsRef (state r) = None
    /\ inputContextRef (state r) = None
    /\ outputContextRef (state r) = None
    /\ audioSourcesRef (state r) = []
    /\ transport (state r) = Disconnected
    /\ calls r
       = (ws_close_of (wsRef s) ++ close_of (inputContextRef s)
            ++ close_of (outputContextRef s)
            ++ stops_of (audioSourcesRef s))%list
    /\ stopSession (state r) = ([], Js.Normal tt, state r).
Proof.
  intros T clock s Hs r. apply reachable_started in Hs.
  unfold r. rewrite (stopSession_result s Hs).
  unfold completed, calls, state. cbn [fst snd].
  do 7 (split; [reflexivity|]).
  now rewrite (stopSession_result _ (stopped_started s)).
Qed.

Lemma websocket_stop_is_idempotent_witness :
  stopSession replying
  = ([WsClose 1; CtxClose 2; CtxClose 3; SourceStop 0], Js.Normal tt,
     stopped replying)
  /\ stopSession (stopped replying) = ([], Js.Normal tt, stopped replying).
Proof.
  assert (R : reachable replying).
  { apply reach_decoded. now apply reach_other with mounted; [constructor|]. }
  destruct (websocket_stop_is_idempotent Z Clock_Z replying R)
    as (_ & _ & _ & _ & _ & _ & _ & H2).
  split; [reflexivity | exact H2].
Defined.

(** X25. [stopSession] of the SDK component, part by part. In every state
    the component goes through, the part before the [await] raises no
    exception, closes each audio context once and stops each in-flight
    source once, leaves the contexts null, the set empty and the transport
    disconnected, and leaves the session reference as it was, the session
    not closed: so it stays as long as the promise is pending. Run again
    in a row, that part makes no outside call, so the audio resources are
    never released twice. The part after the [await] raises no exception
    in any state: it closes the session when the promise was fulfilled,
    logs the error when it was rejected, and sets the session reference to
    null. An invocation that begins after the one before it has run to its
    end makes no outside call at all. *)
Theorem sdk_stop_part_by_part :
  forall (T : Type) (clock : Clock T) (s : Session T),
    reachable s ->
    (let r := Live.stopSession_begin s in
     completed r = Js.Normal (sessionRef s)
     /\ calls r
        = (close_of (inputContextRef s) ++ close_of (outputContextRef s)
             ++ stops_of (audioSourcesRef s))%list
     /\ sessionRef (state r) = sessionRef s
     /\ inputContextRef (state r) = None
     /\ outputContextRef (state r) = None
     /\ audioSourcesRef (state r) = []
     /\ transport (state r) = Disconnected
     /\ Live.stopSession_begin (state r)
        = ([], Js.Normal (sessionRef s), state r))
    /\ (forall (promise : LiveSession) (s' : Session T),
           let r := Live.stopSession_resume promise s' in
           completed r = Js.Normal tt
           /\ calls r
              = match rejects promise with
                | Some e => [Console e]
                | None => [SessionClose (live_id promise)]
                end
           /\ state r = set_sessionRef None s')
    /\ (let r := Live.stopSession s in
        completed r = Js.Normal tt
        /\ sessionRef (state r) = None
        /\ calls r
           = (close_of (inputContextRef s) ++ close_of (outputContextRef s)
                ++ stops_of (audioSourcesRef s)
                ++ session_close_of (sessionRef s))%list
        /\ Live.stopSession (state r) = ([], Js.Normal tt, state r)).
Proof.
  intros T clock s Hs. apply reachable_started in Hs. split; [|split].
  - intros r. unfold r. rewrite (live_begin_result s Hs).
    unfold completed, calls, state. cbn [fst snd].
    do 7 (split; [reflexivity|]). apply live_begin_again.
  - intros promise s' r. unfold r. rewrite live_resume_result.
    unfold completed, calls, state. cbn [fst snd]. now repeat split.
  - intros r. unfold r. rewrite (live_stopSession_result s Hs).
    unfold completed, calls, state. cbn [fst snd].
    do 3 (split; [reflexivity|]).
    now rewrite (live_stopSession_result _ (stopped_live_started s)).
Qed.

Lemma sdk_stop_part_by_part_witness :
  Live.stopSession_begin answering
  = ([CtxClose 1; CtxClose 2; SourceStop 0], Js.Normal (Some (mkLive 5 None)),
     stopping_live answering)
  /\ Live.stopSession_begin (stopping_live answering)
     = ([], Js.Normal (Some (mkLive 5 None)), stopping_live answering).
Proof.
  assert (R : reachable answering).
  { apply reach_decoded. now apply reach_other with mounted; [constructor|]. }
  destruct (sdk_stop_part_by_part Z Clock_Z answering R)
    as ((_ & _ & _ & _ & _ & _ & _ & H2) & _).
  split; [reflexivity | exact H2].
Defined.
